(** * AgentID token node: the per-token expiring cache and the three-step chain

    A shallow embedding of [src/nodes/AgentIdToken.node.ts]: the
    [TokenCache] class, the [getOrFetchToken] helper and the [execute]
    method of the [AgentIdToken] node.

    Conventions of the embedding.
    - JavaScript strings are [string]s, compared code unit by code unit.
    - JavaScript numbers that count seconds or milliseconds are integers
      ([Z]); the node only adds, subtracts and multiplies them, which is
      exact on doubles in the range these values live in.
    - [Date.now()] reads an explicit virtual clock held in the state.
    - The module-level [tokenCache] singleton is a field of the state.
    - The host functions ([helpers.httpRequest], [URLSearchParams],
      [getCredentials]) are parameters: the helper is a function from
      the rank of a request and the request to a reply and a latency,
      and the clock advances by that latency while the node waits.

    The package holds a second, later copy of the node (it reports
    version 0.1.8) whose [request] rethrows an enriched error; that
    wrapper is embedded in [Node018]. *)

From stdpp Require Import base gmap strings list sorting fin_maps pretty.
From Stdlib Require Import ZArith Lia.

Local Open Scope string_scope.
Local Open Scope Z_scope.

(** ** JavaScript values that reach the cache *)

(** A token is typed [string] in the source, but the value is whatever
    the token endpoint put in [access_token]: it is [undefined] when the
    field is missing. [null] is what [TokenCache.get] answers on a miss. *)
Inductive JsVal : Type :=
  | JsUndefined
  | JsNull
  | JsStr (s : string).

(** [if (v)]: the empty string, [null] and [undefined] are falsy. *)
Definition truthy (v : JsVal) : bool :=
  match v with
  | JsStr s => negb (String.eqb s "")
  | _ => false
  end.

(** [`${v}`]: string conversion inside a template literal. *)
Definition template (v : JsVal) : string :=
  match v with
  | JsUndefined => "undefined"
  | JsNull => "null"
  | JsStr s => s
  end.

(** [a || b] on an optional number: [undefined] and [0] are falsy. *)
Definition num_or (a : option Z) (b : Z) : Z :=
  match a with
  | Some n => if n =? 0 then b else n
  | None => b
  end.

(** [a || b] on an optional string: [undefined] and [""] are falsy. *)
Definition str_or (a : option string) (b : string) : string :=
  match a with
  | Some s => if String.eqb s "" then b else s
  | None => b
  end.

(** ** Request forms: [Record<string, string>]

    A JavaScript object, as the list of its own properties in
    enumeration order. Property names of an object are pairwise
    distinct ([wf_form]). *)
Definition Form : Type := list (string * JsVal).

Definition Object_keys (params : Form) : list string := params.*1.

Definition wf_form (params : Form) : Prop := NoDup (Object_keys params).

(** [params[key]] *)
Fixpoint prop (params : Form) (key : string) : JsVal :=
  match params with
  | [] => JsUndefined
  | (k, v) :: rest => if decide (k = key) then v else prop rest key
  end.

(** [Array.prototype.sort()] without a comparator, on strings: ascending
    code unit order. *)
Definition sort (keys : list string) : list string := merge_sort String.le keys.

(** [Array.prototype.join(sep)] on strings. *)
Fixpoint join (sep : string) (parts : list string) : string :=
  match parts with
  | [] => ""
  | [p] => p
  | p :: rest => p +:+ sep +:+ join sep rest
  end.

(** ** TokenCache *)

Record CachedToken : Type := mkCachedToken {
  token : JsVal;
  expiresAt : Z;
}.

Module TokenCache.

(** [private cache: Map<string, CachedToken>] *)
Abbreviation t := (gmap string CachedToken).

(** Buffer time in seconds to refresh a token before actual expiration. *)
Definition EXPIRY_BUFFER : Z := 180.

Definition generateKey (prefix : string) (params : Form) : string :=
  let sortedParams :=
    join "&" ((λ key, key +:+ "=" +:+ template (prop params key))
                <$> sort (Object_keys params)) in
  prefix +:+ ":" +:+ sortedParams.

(** [get]: the answer and the cache afterwards; [now] is [Date.now()]. *)
Definition get (now : Z) (prefix : string) (params : Form) (cache : t)
  : JsVal * t :=
  let key := generateKey prefix params in
  match cache !! key with
  | None => (JsNull, cache)
  | Some cached =>
      if expiresAt cached <=? now
      then (JsNull, delete key cache)
      else (token cached, cache)
  end.

(** [set]: the cache afterwards; [now] is [Date.now()]. *)
Definition set (now : Z) (prefix : string) (params : Form)
    (token : JsVal) (expiresIn : Z) (cache : t) : t :=
  let key := generateKey prefix params in
  let expiresAt := now + (expiresIn - EXPIRY_BUFFER) * 1000 in
  <[key := mkCachedToken token expiresAt]> cache.

Definition clear (cache : t) : t := ∅.

End TokenCache.

(** ** The host: HTTP helper, clock, request log *)

Record TokenResponse : Type := mkTokenResponse {
  access_token : JsVal;          (* [JsUndefined]: the field is missing *)
  expires_in : option Z;         (* [None]: the field is missing *)
}.

Record IHttpRequestOptions : Type := mkOptions {
  method : string;
  url : string;
  headers : list (string * string);
  body : string;
}.

(** [error.response] of a rejection, when the endpoint did answer.
    A body is held as the text it prints as: the string itself, or the
    JSON text of the object. *)
Record HttpErrorResponse : Type := mkErrorResponse {
  resp_data : option string;
  resp_body : option string;
  resp_status : option Z;
  resp_statusCode : option Z;
}.

(** What [helpers.httpRequest] rejects with: the helper rejects on a
    response whose status is not a success status, and on transport
    failures (then there is no [response]). *)
Record HttpError : Type := mkHttpError {
  err_response : option HttpErrorResponse;
  err_message : option string;
}.

Inductive HttpOutcome : Type :=
  | Rejected (err : HttpError)
  | Resolved (response : TokenResponse).

(** The answer to one request and the time it took, in milliseconds. *)
Record HttpReply : Type := mkReply {
  outcome : HttpOutcome;
  latency : N;
}.

(** [cacheStats], the object allocated at the start of [execute]. *)
Record CacheStats : Type := mkStats {
  hits : nat;
  misses : nat;
  timings : list (string * Z);
}.

Record State : Type := mkState {
  tokenCache : gmap string CachedToken;    (* the module-level singleton *)
  clock : Z;                               (* what [Date.now()] returns *)
  sent : list IHttpRequestOptions;         (* requests issued so far *)
  cacheStats : CacheStats;
}.

Definition with_tokenCache (c : gmap string CachedToken) (s : State) : State :=
  mkState c (clock s) (sent s) (cacheStats s).
Definition with_clock (t : Z) (s : State) : State :=
  mkState (tokenCache s) t (sent s) (cacheStats s).
Definition with_cacheStats (st : CacheStats) (s : State) : State :=
  mkState (tokenCache s) (clock s) (sent s) st.

(** [o[k] = v] on an object used as a dictionary. *)
Fixpoint obj_set {V} (o : list (string * V)) (k : string) (v : V)
  : list (string * V) :=
  match o with
  | [] => [(k, v)]
  | (k', v') :: rest =>
      if decide (k' = k) then (k', v) :: rest else (k', v') :: obj_set rest k v
  end.

(** ** Computations that may throw *)

Inductive Completion (E A : Type) : Type :=
  | Return (a : A)
  | Throw (e : E).
Global Arguments Return {E A} a.
Global Arguments Throw {E A} e.

Definition M (E A : Type) : Type := State → Completion E A * State.

Global Instance M_ret {E} : MRet (M E) := λ A a s, (Return a, s).
Global Instance M_bind {E} : MBind (M E) := λ A B k m s,
  match m s with
  | (Return a, s') => k a s'
  | (Throw e, s') => (Throw e, s')
  end.

Definition Date_now {E} : M E Z := λ s, (Return (clock s), s).
Definition modify {E} (f : State → State) : M E () := λ s, (Return (), f s).
Definition gets {E A} (f : State → A) : M E A := λ s, (Return (f s), s).

(** The calls on the [tokenCache] singleton. *)
Definition tokenCache_get {E} (prefix : string) (params : Form) : M E JsVal :=
  λ s, let '(r, c) := TokenCache.get (clock s) prefix params (tokenCache s) in
       (Return r, with_tokenCache c s).

Definition tokenCache_set {E} (prefix : string) (params : Form)
    (token : JsVal) (expiresIn : Z) : M E () :=
  modify (λ s, with_tokenCache
    (TokenCache.set (clock s) prefix params token expiresIn (tokenCache s)) s).

Definition DEFAULT_SCOPE : string := "api://AzureADTokenExchange/.default".

(** The decrypted [agentIdOAuth2Api] credentials, as [getCredentials]
    hands them to the node. *)
Record Credentials : Type := mkCredentials {
  tokenEndpoint : string;
  blueprintId : string;
  blueprintSecret : string;
  agentId : string;
  agentUser : string;
  scope : option string;
}.

Record CacheInfo : Type := mkCacheInfo {
  node_version : string;
  cache_hits : nat;
  cache_misses : nat;
  fetch_times_ms : list (string * Z);
  total_fetch_time_ms : Z;
}.

(** One element of [returnData]. *)
Record TokenItem : Type := mkTokenItem {
  item_access_token : JsVal;
  item_blueprint_token : JsVal;
  item_agent_token : JsVal;
  item_scope : string;
  item_cache_info : CacheInfo;
}.

Definition JWT_BEARER : string :=
  "urn:ietf:params:oauth:client-assertion-type:jwt-bearer".

Definition blueprintForm (credentials : Credentials) : Form :=
  [ ("grant_type", JsStr "client_credentials");
    ("client_id", JsStr (blueprintId credentials));
    ("client_secret", JsStr (blueprintSecret credentials));
    ("scope", JsStr DEFAULT_SCOPE);
    ("fmi_path", JsStr (agentId credentials)) ].

Definition agentFicForm (credentials : Credentials) (blueprintFic : JsVal) : Form :=
  [ ("grant_type", JsStr "client_credentials");
    ("client_id", JsStr (agentId credentials));
    ("scope", JsStr DEFAULT_SCOPE);
    ("client_assertion", blueprintFic);
    ("client_assertion_type", JsStr JWT_BEARER) ].

Definition userTokenForm (credentials : Credentials) (userScope : string)
    (blueprintFic agentidFic : JsVal) : Form :=
  [ ("grant_type", JsStr "user_fic");
    ("requested_token_use", JsStr "on_behalf_of");
    ("client_id", JsStr (agentId credentials));
    ("client_assertion", blueprintFic);
    ("client_assertion_type", JsStr JWT_BEARER);
    ("username", JsStr (agentUser credentials));
    ("user_federated_identity_credential", agentidFic);
    ("scope", JsStr userScope) ].

Definition sum_values (o : list (string * Z)) : Z :=
  foldl (λ a b, a + b) 0 o.*2.

Section Node.

(** [new URLSearchParams(form).toString()] *)
Variable encodeBody : Form → string.

(** [this.helpers.httpRequest]: the reply to the [n]-th request the
    process issues, as a function of that request. *)
Variable httpRequest : nat → IHttpRequestOptions → HttpReply.

Definition request_options (tokenEndpoint : string) (form : Form)
  : IHttpRequestOptions :=
  {| method := "POST";
     url := tokenEndpoint;
     headers := [("Content-Type", "application/x-www-form-urlencoded")];
     body := encodeBody form |}.

(** [request]: issue the POST, wait for the reply. *)
Definition request (tokenEndpoint : string) (form : Form)
  : M HttpError TokenResponse :=
  λ s,
    let options := request_options tokenEndpoint form in
    let reply := httpRequest (length (sent s)) options in
    let s' := mkState (tokenCache s) (clock s + Z.of_N (latency reply))
                      (sent s ++ [options]) (cacheStats s) in
    match outcome reply with
    | Resolved response => (Return response, s')
    | Rejected err => (Throw err, s')
    end.

Definition getOrFetchToken (tokenEndpoint : string)
    (cachePrefix : string) (form : Form) (defaultExpiry : Z)
  : M HttpError JsVal :=
  cachedToken ← tokenCache_get cachePrefix form;
  if truthy cachedToken then
    modify (λ s, with_cacheStats
      (let st := cacheStats s in
       mkStats (S (hits st)) (misses st) (obj_set (timings st) cachePrefix 0)) s);;
    mret cachedToken
  else
    modify (λ s, with_cacheStats
      (let st := cacheStats s in
       mkStats (hits st) (S (misses st)) (timings st)) s);;
    startTime ← Date_now;
    response ← request tokenEndpoint form;
    endTime ← Date_now;
    let elapsed := endTime - startTime in
    let expiresIn := num_or (expires_in response) defaultExpiry in
    modify (λ s, with_cacheStats
      (let st := cacheStats s in
       mkStats (hits st) (misses st) (obj_set (timings st) cachePrefix elapsed)) s);;
    tokenCache_set cachePrefix form (access_token response) expiresIn;;
    mret (access_token response).

(** The body of the [for] loop of [execute], for one input item. *)
Definition chain (credentials : Credentials) : M HttpError TokenItem :=
  let userScope := str_or (scope credentials) DEFAULT_SCOPE in
  let fetch := getOrFetchToken (tokenEndpoint credentials) in
  blueprintFic ← fetch "blueprint" (blueprintForm credentials) 3600;
  agentidFic ← fetch "agentFic" (agentFicForm credentials blueprintFic) 3600;
  userToken ← fetch "userToken"
    (userTokenForm credentials userScope blueprintFic agentidFic) 3600;
  st ← gets cacheStats;
  mret {| item_access_token := userToken;
          item_blueprint_token := blueprintFic;
          item_agent_token := agentidFic;
          item_scope := userScope;
          item_cache_info :=
            {| node_version := "0.1.6";
               cache_hits := hits st;
               cache_misses := misses st;
               fetch_times_ms := timings st;
               total_fetch_time_ms := sum_values (timings st) |} |}.

Fixpoint for_items {Item} (credentials : Credentials) (items : list Item)
    (returnData : list TokenItem) : M HttpError (list TokenItem) :=
  match items with
  | [] => mret returnData
  | _ :: rest =>
      r ← chain credentials;
      for_items credentials rest (returnData ++ [r])
  end.

(** Every pushed record holds a reference to the one [timings] object,
    so a reader of the result sees its final contents in each. *)
Definition alias_timings (final : list (string * Z)) (r : TokenItem) : TokenItem :=
  let ci := item_cache_info r in
  mkTokenItem (item_access_token r) (item_blueprint_token r)
    (item_agent_token r) (item_scope r)
    (mkCacheInfo (node_version ci) (cache_hits ci) (cache_misses ci)
       final (total_fetch_time_ms ci)).

(** [execute]: [credentials] is what [getCredentials] resolves to,
    [items] is [getInputData()]. *)
Definition execute {Item} (credentials : Credentials) (items : list Item)
  : M HttpError (list TokenItem) :=
  modify (with_cacheStats (mkStats 0 0 []));;
  returnData ← for_items credentials items [];
  st ← gets cacheStats;
  mret (alias_timings (timings st) <$> returnData).

End Node.

(** ** The copy of the node that reports version 0.1.8

    The package also holds a later copy of the node. Its [request] takes
    the step name and wraps the helper call in a try/catch that rethrows
    an [Error] with an enriched message; the rest of the chain is the
    one above, with calls to [log] added. Those calls write to
    [debugLog] and to the host logger only and are left out here, and
    so is the [debugLog] array attached to the rethrown error. *)

Module Node018.

Record EnrichedError : Type := mkEnrichedError {
  message : string;
}.

(** [error.response?.data ?? error.response?.body ?? error.message
     ?? 'unknown error'], printed. *)
Definition responseBody (error : HttpError) : string :=
  match err_response error ≫= resp_data with
  | Some data => data
  | None =>
      match err_response error ≫= resp_body with
      | Some body => body
      | None => default "unknown error" (err_message error)
      end
  end.

(** [error.response?.status ?? error.response?.statusCode ?? 'N/A'],
    printed. *)
Definition statusCode (error : HttpError) : string :=
  match err_response error ≫= resp_status with
  | Some n => pretty n
  | None =>
      match err_response error ≫= resp_statusCode with
      | Some n => pretty n
      | None => "N/A"
      end
  end.

Definition enrichedMsg (stepName : string) (error : HttpError) : string :=
  "[" +:+ stepName +:+ "] HTTP " +:+ statusCode error +:+ ": "
  +:+ responseBody error.

Section Request.

Variable encodeBody : Form → string.
Variable httpRequest : nat → IHttpRequestOptions → HttpReply.

Definition request (tokenEndpoint : string) (stepName : string) (form : Form)
  : M EnrichedError TokenResponse :=
  λ s,
    let options :=
      {| method := "POST";
         url := tokenEndpoint;
         headers := [("Content-Type", "application/x-www-form-urlencoded")];
         body := encodeBody form |} in
    let reply := httpRequest (length (sent s)) options in
    let s' := mkState (tokenCache s) (clock s + Z.of_N (latency reply))
                      (sent s ++ [options]) (cacheStats s) in
    match outcome reply with
    | Resolved resp => (Return resp, s')
    | Rejected err => (Throw (mkEnrichedError (enrichedMsg stepName err)), s')
    end.

End Request.

End Node018.

(** ** The 0.1.8 copy in full: the chain with its debug log

    The later copy of [AgentIdToken.node.ts], with every call to [log].
    Each input item has its own [debugLog] array; [logger] is what the
    host logger has received. Three more host functions are
    parameters: the printing of a date, [JSON.stringify] on a form, and
    the enumeration of the keys of an error object. *)

Module AgentIdToken018.

Record LogState : Type := mkLogState {
  base : State;
  debugLog : list string;
  logger : list string;
}.

(** The [Error] that [request] rethrows, with the [debugLog] array
    attached to it. *)
Record EnrichedError : Type := mkError {
  message : string;
  error_debugLog : list string;
}.

(** The error record pushed before the userToken failure is rethrown. *)
Record ErrorItem : Type := mkErrorItem {
  error : string;
  error_debug_log : list string;
  error_node_version : string;
  error_cache_hits : nat;
  error_cache_misses : nat;
  error_fetch_times_ms : list (string * Z);
}.

(** One element of [returnData]: the error record, or the tokens with
    the debug log of the item. *)
Inductive Pushed : Type :=
  | PushedError (e : ErrorItem)
  | PushedTokens (t : TokenItem) (debug_log : list string).

Definition M018 (A : Type) : Type :=
  LogState → Completion EnrichedError A * LogState.

Global Instance M018_ret : MRet M018 := λ A a s, (Return a, s).
Global Instance M018_bind : MBind M018 := λ A B k m s,
  match m s with
  | (Return a, s') => k a s'
  | (Throw e, s') => (Throw e, s')
  end.

(** A computation on the state of the node, run on [base]. *)
Definition lift {A} (m : M EnrichedError A) : M018 A :=
  λ ls, let '(r, s') := m (base ls) in
        (r, mkLogState s' (debugLog ls) (logger ls)).

Definition throw {A} (e : EnrichedError) : M018 A := λ ls, (Throw e, ls).

(** [const debugLog: string[] = []] at the start of an item, and a
    reading of the array. *)
Definition new_debugLog : M018 () :=
  λ ls, (Return (), mkLogState (base ls) [] (logger ls)).
Definition read_debugLog : M018 (list string) :=
  λ ls, (Return (debugLog ls), ls).

(** [try { m } catch (err) { handler(err) }] *)
Definition try_catch {A} (m : M018 A) (handler : EnrichedError → M018 A) : M018 A :=
  λ ls, match m ls with
        | (Throw e, ls') => handler e ls'
        | r => r
        end.

Definition SENSITIVE : list string :=
  ["client_secret"; "client_assertion"; "user_federated_identity_credential"].

(** The value a sensitive parameter is logged as. *)
Definition redact (v : JsVal) : JsVal :=
  match v with
  | JsStr s =>
      if truthy v
      then JsStr (String.substring 0 20 s +:+ "...["
                  +:+ pretty (String.length s) +:+ " chars]")
      else JsStr "(empty)"
  | _ => JsStr "(empty)"
  end.

Definition redactForm (form : Form) : Form :=
  foldl (λ redacted kv,
           obj_set redacted kv.1
             (if bool_decide (kv.1 ∈ SENSITIVE) then redact kv.2 else kv.2))
        [] form.

(** [resp.access_token?.length || 0] *)
Definition token_length (v : JsVal) : nat :=
  match v with
  | JsStr s => String.length s
  | _ => 0
  end.

Section Node.

Variable encodeBody : Form → string.
Variable httpRequest : nat → IHttpRequestOptions → HttpReply.

(** [new Date(t).toISOString()] *)
Variable toISOString : Z → string.

(** [JSON.stringify] on a form. *)
Variable JSON_stringify : Form → string.

(** [Object.keys] on what the helper rejected with. *)
Variable error_keys : HttpError → list string.

Definition log (msg : string) : M018 () :=
  λ ls,
    let ts := toISOString (clock (base ls)) in
    (Return (),
     mkLogState (base ls)
       (debugLog ls ++ ["[" +:+ ts +:+ "] " +:+ msg])
       (logger ls ++ ["[AgentIdToken] " +:+ msg])).

(** [await this.helpers.httpRequest(options)], as its outcome. *)
Definition await_httpRequest (options : IHttpRequestOptions) : M018 HttpOutcome :=
  λ ls,
    let s := base ls in
    let reply := httpRequest (length (sent s)) options in
    (Return (outcome reply),
     mkLogState
       (mkState (tokenCache s) (clock s + Z.of_N (latency reply))
          (sent s ++ [options]) (cacheStats s))
       (debugLog ls) (logger ls)).

Definition request (tokenEndpoint : string) (stepName : string) (form : Form)
  : M018 TokenResponse :=
  let body := encodeBody form in
  let options :=
    {| method := "POST";
       url := tokenEndpoint;
       headers := [("Content-Type", "application/x-www-form-urlencoded")];
       body := body |} in
  log ("[" +:+ stepName +:+ "] POST " +:+ tokenEndpoint);;
  log ("[" +:+ stepName +:+ "] Form params: " +:+ JSON_stringify (redactForm form));;
  settled ← await_httpRequest options;
  match settled with
  | Resolved resp =>
      log ("[" +:+ stepName +:+ "] SUCCESS - got access_token ("
           +:+ pretty (token_length (access_token resp)) +:+ " chars), expires_in="
           +:+ from_option pretty "N/A" (expires_in resp));;
      mret resp
  | Rejected error =>
      let responseBody := Node018.responseBody error in
      let statusCode := Node018.statusCode error in
      log ("[" +:+ stepName +:+ "] FAILED - status=" +:+ statusCode);;
      log ("[" +:+ stepName +:+ "] Error response: " +:+ responseBody);;
      log ("[" +:+ stepName +:+ "] Full error keys: " +:+ join ", " (error_keys error));;
      let enrichedMsg :=
        "[" +:+ stepName +:+ "] HTTP " +:+ statusCode +:+ ": " +:+ responseBody in
      attached ← read_debugLog;
      throw (mkError enrichedMsg attached)
  end.

Definition getOrFetchToken (tokenEndpoint : string)
    (cachePrefix : string) (form : Form) (defaultExpiry : Z) : M018 JsVal :=
  cachedToken ← lift (tokenCache_get cachePrefix form);
  if truthy cachedToken then
    lift (modify (λ s, with_cacheStats
      (let st := cacheStats s in
       mkStats (S (hits st)) (misses st) (obj_set (timings st) cachePrefix 0)) s));;
    log ("[" +:+ cachePrefix +:+ "] Cache HIT");;
    mret cachedToken
  else
    log ("[" +:+ cachePrefix +:+ "] Cache MISS - fetching...");;
    lift (modify (λ s, with_cacheStats
      (let st := cacheStats s in
       mkStats (hits st) (S (misses st)) (timings st)) s));;
    startTime ← lift Date_now;
    response ← request tokenEndpoint cachePrefix form;
    endTime ← lift Date_now;
    let elapsed := endTime - startTime in
    let expiresIn := num_or (expires_in response) defaultExpiry in
    lift (modify (λ s, with_cacheStats
      (let st := cacheStats s in
       mkStats (hits st) (misses st) (obj_set (timings st) cachePrefix elapsed)) s));;
    log ("[" +:+ cachePrefix +:+ "] Cached with expiresIn=" +:+ pretty expiresIn
         +:+ "s, fetch took " +:+ pretty elapsed +:+ "ms");;
    lift (tokenCache_set cachePrefix form (access_token response) expiresIn);;
    mret (access_token response).

(** The body of the [for] loop, for the input item of index [i]. *)
Definition item (credentials : Credentials) (i : nat) (returnData : list Pushed)
  : M018 (list Pushed) :=
  new_debugLog;;
  log ("--- Starting item " +:+ pretty i +:+ " ---");;
  let tokenEndpoint := tokenEndpoint credentials in
  let userScope := str_or (scope credentials) DEFAULT_SCOPE in
  log ("Token endpoint: " +:+ tokenEndpoint);;
  log ("Scope: " +:+ userScope);;
  log ("Blueprint ID: " +:+ String.substring 0 8 (blueprintId credentials) +:+ "...");;
  log ("Agent ID: " +:+ String.substring 0 8 (agentId credentials) +:+ "...");;
  log ("Agent User: " +:+ agentUser credentials);;
  blueprintFic ← getOrFetchToken tokenEndpoint "blueprint"
    (blueprintForm credentials) 3600;
  agentidFic ← getOrFetchToken tokenEndpoint "agentFic"
    (agentFicForm credentials blueprintFic) 3600;
  userToken ← try_catch
    (getOrFetchToken tokenEndpoint "userToken"
       (userTokenForm credentials userScope blueprintFic agentidFic) 3600)
    (λ err,
       st ← lift (gets cacheStats);
       let pushed := (returnData ++
         [PushedError
            {| error := message err;
               error_debug_log := error_debugLog err;
               error_node_version := "0.1.8";
               error_cache_hits := hits st;
               error_cache_misses := misses st;
               error_fetch_times_ms := timings st |}])%list in
       throw err);
  log ("--- Completed item " +:+ pretty i +:+ " successfully ---");;
  st ← lift (gets cacheStats);
  debug_log ← read_debugLog;
  mret (returnData ++
    [PushedTokens
       {| item_access_token := userToken;
          item_blueprint_token := blueprintFic;
          item_agent_token := agentidFic;
          item_scope := userScope;
          item_cache_info :=
            {| node_version := "0.1.8";
               cache_hits := hits st;
               cache_misses := misses st;
               fetch_times_ms := timings st;
               total_fetch_time_ms := sum_values (timings st) |} |}
       debug_log])%list.

Fixpoint for_items {Item} (credentials : Credentials) (i : nat)
    (items : list Item) (returnData : list Pushed) : M018 (list Pushed) :=
  match items with
  | [] => mret returnData
  | _ :: rest =>
      returnData' ← item credentials i returnData;
      for_items credentials (S i) rest returnData'
  end.

(** As in the first copy, every record refers to the one [timings]
    object. *)
Definition alias_timings (final : list (string * Z)) (p : Pushed) : Pushed :=
  match p with
  | PushedTokens t debug_log =>
      let ci := item_cache_info t in
      PushedTokens
        (mkTokenItem (item_access_token t) (item_blueprint_token t)
           (item_agent_token t) (item_scope t)
           (mkCacheInfo (node_version ci) (cache_hits ci) (cache_misses ci)
              final (total_fetch_time_ms ci)))
        debug_log
  | PushedError e =>
      PushedError
        (mkErrorItem (error e) (error_debug_log e) (error_node_version e)
           (error_cache_hits e) (error_cache_misses e) final)
  end.

Definition execute {Item} (credentials : Credentials) (items : list Item)
  : M018 (list Pushed) :=
  lift (modify (with_cacheStats (mkStats 0 0 [])));;
  returnData ← for_items credentials 0 items [];
  st ← lift (gets cacheStats);
  mret (alias_timings (timings st) <$> returnData).

End Node.

End AgentIdToken018.

(** ** The credential type: [AgentIdOAuth2Api.preAuthentication]

    [src/credentials/AgentIdOAuth2Api.credentials.ts] runs the same
    three exchanges before each use of the credential, without the
    token cache (the host caches the result as a whole). *)

Module AgentIdOAuth2Api.

(** What [preAuthentication] resolves to. *)
Record AuthResult : Type := mkAuthResult {
  accessToken : JsVal;
  blueprintFic : JsVal;
  agentidFic : JsVal;
}.

Section Credential.

Variable encodeBody : Form → string.
Variable httpRequest : nat → IHttpRequestOptions → HttpReply.

Definition request (tokenEndpoint : string) (form : Form)
  : M HttpError TokenResponse :=
  λ s,
    let options :=
      {| method := "POST";
         url := tokenEndpoint;
         headers := [("Content-Type", "application/x-www-form-urlencoded")];
         body := encodeBody form |} in
    let reply := httpRequest (length (sent s)) options in
    let s' := mkState (tokenCache s) (clock s + Z.of_N (latency reply))
                      (sent s ++ [options]) (cacheStats s) in
    match outcome reply with
    | Resolved response => (Return response, s')
    | Rejected err => (Throw err, s')
    end.

Definition preAuthentication (credentials : Credentials)
  : M HttpError AuthResult :=
  let tokenEndpoint := tokenEndpoint credentials in
  let userScope := str_or (scope credentials) DEFAULT_SCOPE in
  (* 1) Blueprint FIC *)
  blueprintToken ← request tokenEndpoint (blueprintForm credentials);
  let blueprintFic := access_token blueprintToken in
  (* 2) AgentID FIC with client assertion *)
  agentFicToken ← request tokenEndpoint (agentFicForm credentials blueprintFic);
  let agentidFic := access_token agentFicToken in
  (* 3) User token (OBO style) *)
  userToken ← request tokenEndpoint
    (userTokenForm credentials userScope blueprintFic agentidFic);
  mret {| accessToken := access_token userToken;
          blueprintFic := blueprintFic;
          agentidFic := agentidFic |}.

End Credential.

End AgentIdOAuth2Api.

(** ** The ping node: [AgentIdPing.execute]

    One GET per input item, to the URL configured for that item. The
    request log of this node is a list of its own requests. *)

Module AgentIdPing.

Record Request : Type := mkRequest {
  method : string;
  url : string;
}.

(** One element of [returnData]. *)
Record Pong (Data : Type) : Type := mkPong {
  status : Z;
  data : Data;
}.
Global Arguments mkPong {Data} status data.
Global Arguments status {Data} p.
Global Arguments data {Data} p.

Section Ping.

(** What a response body is. *)
Variable Data : Type.

(** [this.getNodeParameter(name, i)] *)
Variable getNodeParameter : string → nat → string.

(** [this.helpers.httpRequest]: the outcome of the [n]-th request. *)
Variable httpRequest : nat → Request → HttpError + Data.

(** The [for] loop, from index [i] on. *)
Fixpoint for_items {Item} (i : nat) (items : list Item)
    (returnData : list (Pong Data)) (sent : list Request)
  : Completion HttpError (list (Pong Data)) * list Request :=
  match items with
  | [] => (Return returnData, sent)
  | _ :: rest =>
      let url := getNodeParameter "url" i in
      let options := {| method := "GET"; url := url |} in
      match httpRequest (length sent) options with
      | inl err => (Throw err, (sent ++ [options])%list)
      | inr response =>
          for_items (S i) rest
            (returnData ++ [{| status := 200; data := response |}])%list
            (sent ++ [options])%list
      end
  end.

Definition execute {Item} (items : list Item) (sent : list Request)
  : Completion HttpError (list (Pong Data)) * list Request :=
  for_items 0 items [] sent.

End Ping.

End AgentIdPing.

(** ** Concrete hosts and inputs used in the examples *)

Module Demo.

(** A stand-in for [URLSearchParams]: [k=v] pairs joined by [&],
    without percent-encoding. *)
Definition encodeBody (form : Form) : string :=
  join "&" ((λ kv, kv.1 +:+ "=" +:+ template kv.2) <$> form).

Definition credentials : Credentials :=
  {| tokenEndpoint := "https://login.example/token";
     blueprintId := "B1"; blueprintSecret := "S1";
     agentId := "A1"; agentUser := "U1"; scope := None |}.

Definition ok (tok : string) (expires : option Z) (ms : N) : HttpReply :=
  mkReply (Resolved (mkTokenResponse (JsStr tok) expires)) ms.

Definition unauthorized : HttpError :=
  mkHttpError
    (Some (mkErrorResponse (Some "invalid_client") None (Some 401) None))
    (Some "Request failed with status code 401").

(** The endpoint of the specification's scenario. *)
Definition endpoint (n : nat) (_ : IHttpRequestOptions) : HttpReply :=
  match n with
  | 0%nat => ok "tok1" (Some 3600) 40
  | 1%nat => ok "tok2" (Some 3600) 35
  | _ => ok "tok3" (Some 1800) 50
  end.

(** An endpoint that refuses the second request with HTTP 401. *)
Definition endpoint_401 (n : nat) (_ : IHttpRequestOptions) : HttpReply :=
  match n with
  | 0%nat => ok "tok1" (Some 3600) 40
  | 1%nat => mkReply (Rejected unauthorized) 20
  | _ => ok "tokN" (Some 3600) 30
  end.

(** An endpoint that refuses the first request with HTTP 401. *)
Definition endpoint_401_first (n : nat) (_ : IHttpRequestOptions) : HttpReply :=
  match n with
  | 0%nat => mkReply (Rejected unauthorized) 20
  | _ => ok "tokN" (Some 3600) 30
  end.

(** An endpoint that answers 200 with a body that has no
    [access_token]. *)
Definition endpoint_no_token (_ : nat) (_ : IHttpRequestOptions) : HttpReply :=
  mkReply (Resolved (mkTokenResponse JsUndefined (Some 3600))) 10.

(** An endpoint whose answers carry no [expires_in]. *)
Definition endpoint_no_expiry (_ : nat) (_ : IHttpRequestOptions) : HttpReply :=
  ok "tok1" None 40.

(** An endpoint whose answers carry [expires_in: 0]. *)
Definition endpoint_zero_expiry (_ : nat) (_ : IHttpRequestOptions) : HttpReply :=
  ok "tok1" (Some 0) 40.

Definition cold (t : Z) : State := mkState ∅ t [] (mkStats 0 0 []).

(** An endpoint that answers 200 with an empty [access_token]. *)
Definition endpoint_empty_tokens (_ : nat) (_ : IHttpRequestOptions) : HttpReply :=
  ok "" (Some 3600) 10.

(** A state whose cache holds an agentFic entry, for the blueprint token
    [tok1], that expired at 500. *)
Definition stale_agentFic : State :=
  mkState
    (<[TokenCache.generateKey "agentFic" (agentFicForm credentials (JsStr "tok1"))
       := mkCachedToken (JsStr "old-agent") 500]> ∅)
    1000 [] (mkStats 0 0 []).

(** Stand-ins for the host functions the debug log prints with. *)
Definition toISOString (t : Z) : string := "T" +:+ pretty t.
Definition JSON_stringify (form : Form) : string := "{" +:+ encodeBody form +:+ "}".
Definition error_keys (_ : HttpError) : list string := ["message"; "response"].

Definition cold_log (t : Z) : AgentIdToken018.LogState :=
  AgentIdToken018.mkLogState (cold t) [] [].

(** A state that holds a fresh blueprint token for [credentials]. *)
Definition warm_blueprint : State :=
  mkState
    (TokenCache.set 0 "blueprint" (blueprintForm credentials) (JsStr "tok1") 3600 ∅)
    1000 [] (mkStats 0 0 []).

(** A ping target that answers the first two requests and refuses the
    third. *)
Definition ping_url (_ : string) (i : nat) : string := "https://api.example/" +:+ pretty i.
Definition ping_host (n : nat) (_ : AgentIdPing.Request) : HttpError + string :=
  match n with
  | 0%nat => inr "pong0"
  | 1%nat => inr "pong1"
  | _ => inl unauthorized
  end.

End Demo.

(** A call made on a cache by a later caller, for statements about
    "every subsequent operation". *)
Inductive CacheOp : Type :=
  | OpGet (now : Z) (prefix : string) (params : Form)
  | OpSet (now : Z) (prefix : string) (params : Form) (token : JsVal) (expiresIn : Z).

Definition op_key (op : CacheOp) : string :=
  match op with
  | OpGet _ prefix params => TokenCache.generateKey prefix params
  | OpSet _ prefix params _ _ => TokenCache.generateKey prefix params
  end.

Definition is_set (op : CacheOp) : bool :=
  match op with OpSet _ _ _ _ _ => true | OpGet _ _ _ => false end.

Definition run_op (cache : gmap string CachedToken) (op : CacheOp)
  : gmap string CachedToken :=
  match op with
  | OpGet now prefix params => (TokenCache.get now prefix params cache).2
  | OpSet now prefix params token expiresIn =>
      TokenCache.set now prefix params token expiresIn cache
  end.

Definition run_ops (ops : list CacheOp) (cache : gmap string CachedToken)
  : gmap string CachedToken := foldl run_op cache ops.

(** The three cache kinds the node uses as key prefixes. *)
Definition is_kind (prefix : string) : Prop :=
  prefix = "blueprint" ∨ prefix = "agentFic" ∨ prefix = "userToken".

(** The state a fetch step leaves when the cache had no entry under its
    key and the endpoint answered [r] after [ms] milliseconds. *)
Definition after_fetch (options : IHttpRequestOptions) (prefix : string)
    (form : Form) (r : TokenResponse) (ms : N) (s : State) : State :=
  let now' := clock s + Z.of_N ms in
  mkState
    (TokenCache.set now' prefix form (access_token r)
       (num_or (expires_in r) 3600) (tokenCache s))
    now' (sent s ++ [options])
    (mkStats (hits (cacheStats s)) (S (misses (cacheStats s)))
       (obj_set (timings (cacheStats s)) prefix (Z.of_N ms))).

(** The state a step leaves when it was served from the cache. *)
Definition after_hit (prefix : string) (s : State) : State :=
  mkState (tokenCache s) (clock s) (sent s)
    (mkStats (S (hits (cacheStats s))) (misses (cacheStats s))
       (obj_set (timings (cacheStats s)) prefix 0)).

(** A computation only ever appends to the request log. *)
Definition grows {E A} (m : M E A) : Prop :=
  ∀ s, ∃ tail, sent (m s).2 = (sent s ++ tail)%list.

(** A record of the first copy, as the 0.1.8 copy reports it. *)
Definition as_018 (t : TokenItem) : TokenItem :=
  let ci := item_cache_info t in
  mkTokenItem (item_access_token t) (item_blueprint_token t)
    (item_agent_token t) (item_scope t)
    (mkCacheInfo "0.1.8" (cache_hits ci) (cache_misses ci)
       (fetch_times_ms ci) (total_fetch_time_ms ci)).

(** Two values that [redact] cannot tell apart: both falsy, or two
    non-empty strings with the same first 20 characters and the same
    length. *)
Definition alike20 (v1 v2 : JsVal) : Prop :=
  (truthy v1 = false ∧ truthy v2 = false)
  ∨ ∃ s1 s2, v1 = JsStr s1 ∧ v2 = JsStr s2 ∧ s1 ≠ "" ∧ s2 ≠ ""
      ∧ String.substring 0 20 s1 = String.substring 0 20 s2
      ∧ String.length s1 = String.length s2.

(** Two forms with the same names, equal values under the names that
    are not redacted, and alike values under those that are. *)
Definition same_when_redacted (f1 f2 : Form) : Prop :=
  Forall2 (λ kv1 kv2,
             kv1.1 = kv2.1
             ∧ if bool_decide (kv1.1 ∈ AgentIdToken018.SENSITIVE)
               then alike20 kv1.2 kv2.2
               else kv1.2 = kv2.2) f1 f2.

(** * Properties *)

(** ** Cache keys *)

Example generateKey_ab :
  TokenCache.generateKey "blueprint" [("b", JsStr "2"); ("a", JsStr "1")]
  = "blueprint:a=1&b=2".
Proof. vm_compute. reflexivity. Qed.

Lemma sort_perm (l1 l2 : list string) : l1 ≡ₚ l2 → sort l1 = sort l2.
Proof.
  intros Hp. unfold sort.
  apply (Sorted_unique String.le); try apply Sorted_merge_sort; try apply _.
  by rewrite !merge_sort_Permutation.
Qed.

Lemma prop_elem_of (params : Form) key v :
  wf_form params → (key, v) ∈ params → prop params key = v.
Proof.
  unfold wf_form, Object_keys.
  induction params as [|[k w] rest IH]; intros Hnd Hin.
  - by apply elem_of_nil in Hin.
  - apply NoDup_cons in Hnd as [Hk Hnd]. simpl.
    apply elem_of_cons in Hin as [Heq|Hin].
    + inversion Heq; subst. by rewrite decide_True.
    + rewrite decide_False; [by apply IH|].
      intros ->. apply Hk. simpl.
      apply list_elem_of_fmap. by exists (key, v).
Qed.

Lemma prop_not_key (params : Form) key :
  key ∉ Object_keys params → prop params key = JsUndefined.
Proof.
  unfold Object_keys.
  induction params as [|[k w] rest IH]; intros Hk; [done|]. simpl in *.
  apply not_elem_of_cons in Hk as [Hne Hk].
  rewrite decide_False; [by apply IH | congruence].
Qed.

Lemma prop_perm (p1 p2 : Form) key :
  wf_form p1 → p1 ≡ₚ p2 → prop p1 key = prop p2 key.
Proof.
  intros Hwf Hp.
  assert (Hwf2 : wf_form p2).
  { unfold wf_form, Object_keys in *. by rewrite <- Hp. }
  destruct (decide (key ∈ Object_keys p1)) as [Hin|Hin].
  - unfold Object_keys in Hin. apply list_elem_of_fmap in Hin as ([k v] & -> & Hin).
    simpl. rewrite (prop_elem_of p1 k v Hwf Hin).
    symmetry. apply prop_elem_of; [done|]. by rewrite <- Hp.
  - rewrite (prop_not_key p1 key Hin). symmetry. apply prop_not_key.
    unfold Object_keys in *. by rewrite <- Hp.
Qed.

Lemma generateKey_perm prefix (p1 p2 : Form) :
  wf_form p1 → p1 ≡ₚ p2 →
  TokenCache.generateKey prefix p1 = TokenCache.generateKey prefix p2.
Proof.
  intros Hwf Hp. unfold TokenCache.generateKey.
  rewrite (sort_perm (Object_keys p1) (Object_keys p2)).
  2: { unfold Object_keys. by rewrite Hp. }
  do 3 f_equal. apply list_fmap_ext. intros _ key _.
  by rewrite (prop_perm p1 p2 key Hwf Hp).
Qed.

(** C3. Cache key generation is order-independent: two forms holding the
    same name/value pairs, in any enumeration order, get the same key
    under the same prefix, so [get] and [set] address the same slot
    whichever of the two they are given. *)
Theorem generateKey_order_independent prefix (p1 p2 : Form) :
  wf_form p1 → p1 ≡ₚ p2 →
  TokenCache.generateKey prefix p1 = TokenCache.generateKey prefix p2
  ∧ (∀ now cache,
       TokenCache.get now prefix p1 cache = TokenCache.get now prefix p2 cache)
  ∧ (∀ now token expiresIn cache,
       TokenCache.set now prefix p1 token expiresIn cache
       = TokenCache.set now prefix p2 token expiresIn cache).
Proof.
  intros Hwf Hp. pose proof (generateKey_perm prefix p1 p2 Hwf Hp) as Hk.
  split; [done|]. split.
  - intros now cache. unfold TokenCache.get. by rewrite Hk.
  - intros now tok e cache. unfold TokenCache.set. by rewrite Hk.
Qed.

Lemma generateKey_order_independent_witness :
  TokenCache.generateKey "blueprint" [("a", JsStr "1"); ("b", JsStr "2")]
  = TokenCache.generateKey "blueprint" [("b", JsStr "2"); ("a", JsStr "1")].
Proof.
  apply (generateKey_order_independent "blueprint"
           [("a", JsStr "1"); ("b", JsStr "2")] [("b", JsStr "2"); ("a", JsStr "1")]).
  - unfold wf_form. apply (bool_decide_unpack _). vm_compute. exact I.
  - apply Permutation_swap.
Defined.

(** ** Expiry arithmetic, eviction and frame of the cache *)

Lemma get_miss now prefix params (cache : gmap string CachedToken) :
  cache !! TokenCache.generateKey prefix params = None →
  TokenCache.get now prefix params cache = (JsNull, cache).
Proof. intros H. unfold TokenCache.get. by rewrite H. Qed.

Lemma get_expired now prefix params (cache : gmap string CachedToken) cached :
  cache !! TokenCache.generateKey prefix params = Some cached →
  expiresAt cached ≤ now →
  TokenCache.get now prefix params cache
  = (JsNull, delete (TokenCache.generateKey prefix params) cache).
Proof.
  intros H Hle. unfold TokenCache.get. rewrite H.
  by rewrite (proj2 (Z.leb_le _ _) Hle).
Qed.

Lemma get_fresh now prefix params (cache : gmap string CachedToken) cached :
  cache !! TokenCache.generateKey prefix params = Some cached →
  now < expiresAt cached →
  TokenCache.get now prefix params cache = (token cached, cache).
Proof.
  intros H Hlt. unfold TokenCache.get. rewrite H.
  by rewrite (proj2 (Z.leb_gt _ _) Hlt).
Qed.

Lemma set_lookup now prefix params tok e (cache : gmap string CachedToken) :
  TokenCache.set now prefix params tok e cache
    !! TokenCache.generateKey prefix params
  = Some (mkCachedToken tok (now + (e - 180) * 1000)).
Proof. unfold TokenCache.set. by rewrite lookup_insert_eq. Qed.

Lemma set_lookup_ne now prefix params tok e (cache : gmap string CachedToken) k :
  k ≠ TokenCache.generateKey prefix params →
  TokenCache.set now prefix params tok e cache !! k = cache !! k.
Proof. intros H. unfold TokenCache.set. by rewrite lookup_insert_ne. Qed.

Lemma get_lookup_ne now prefix params (cache : gmap string CachedToken) k :
  k ≠ TokenCache.generateKey prefix params →
  (TokenCache.get now prefix params cache).2 !! k = cache !! k.
Proof.
  intros H. unfold TokenCache.get.
  destruct (cache !! _) as [cached|]; [|done].
  destruct (_ <=? _); [|done]. simpl. by rewrite lookup_delete_ne.
Qed.

(** A [get] never creates an entry. *)
Lemma get_lookup_None now prefix params (cache : gmap string CachedToken) k :
  cache !! k = None → (TokenCache.get now prefix params cache).2 !! k = None.
Proof.
  intros H. unfold TokenCache.get.
  destruct (cache !! TokenCache.generateKey _ _) as [cached|]; [|done].
  destruct (_ <=? _); [|done]. simpl.
  rewrite lookup_delete. by case_decide.
Qed.

Lemma run_ops_lookup_None ops (cache : gmap string CachedToken) k :
  cache !! k = None →
  Forall (λ op, is_set op = true → op_key op ≠ k) ops →
  run_ops ops cache !! k = None.
Proof.
  unfold run_ops. revert cache.
  induction ops as [|op ops IH]; intros cache Hk Hops; [done|].
  apply Forall_cons in Hops as [Hop Hops]. simpl. apply IH; [|done].
  destruct op as [now p f|now p f tok e]; simpl in *.
  - by apply get_lookup_None.
  - rewrite set_lookup_ne; [done|]. intros ->. by apply Hop.
Qed.

(** Keys of different kinds differ, whatever the forms. *)
Lemma generateKey_kind_inj p1 p2 f1 f2 :
  is_kind p1 → is_kind p2 →
  TokenCache.generateKey p1 f1 = TokenCache.generateKey p2 f2 → p1 = p2.
Proof.
  unfold TokenCache.generateKey.
  intros [-> | [-> | ->]] [-> | [-> | ->]] H; try reflexivity;
    unfold String.app in H; simpl in H; discriminate H.
Qed.

(** C4. [set] stores [expiresAt = now + (expiresIn - 180) * 1000], 180
    being the fixed buffer; so for [expiresIn <= 180] the entry is
    already expired when written, and the next [get] (at any later
    reading of the clock) answers [null] and evicts it. *)
Theorem set_expiry_buffer now prefix params tok e (cache : gmap string CachedToken) :
  let key := TokenCache.generateKey prefix params in
  let cache' := TokenCache.set now prefix params tok e cache in
  TokenCache.EXPIRY_BUFFER = 180
  ∧ cache' !! key
    = Some (mkCachedToken tok (now + (e - TokenCache.EXPIRY_BUFFER) * 1000))
  ∧ (e ≤ 180 →
       (∃ cached, cache' !! key = Some cached ∧ expiresAt cached ≤ now)
       ∧ ∀ now', now ≤ now' →
           TokenCache.get now' prefix params cache' = (JsNull, delete key cache')
           ∧ (TokenCache.get now' prefix params cache').2 !! key = None).
Proof.
  intros key cache'. split; [done|]. split; [apply set_lookup|].
  intros He. split.
  - eexists. split; [apply set_lookup|]. simpl. lia.
  - intros now' Hnow.
    assert (Hg : TokenCache.get now' prefix params cache' = (JsNull, delete key cache')).
    { eapply get_expired; [apply set_lookup|]. simpl. lia. }
    split; [done|]. rewrite Hg. simpl. apply lookup_delete_eq.
Qed.

Lemma set_expiry_buffer_witness :
  TokenCache.get 2000 "blueprint" [("a", JsStr "1")]
    (TokenCache.set 1000 "blueprint" [("a", JsStr "1")] (JsStr "tok") 180 ∅)
  = (JsNull, delete (TokenCache.generateKey "blueprint" [("a", JsStr "1")])
       (TokenCache.set 1000 "blueprint" [("a", JsStr "1")] (JsStr "tok") 180 ∅)).
Proof.
  destruct (set_expiry_buffer 1000 "blueprint" [("a", JsStr "1")] (JsStr "tok") 180 ∅)
    as (_ & _ & H).
  destruct H as [_ H]; [lia|].
  apply (H 2000). lia.
Defined.

(** C5. On a key whose entry has [now >= expiresAt], [get] evicts the
    entry and answers [null], which is also its answer on a plain miss;
    after that, whatever the later callers do short of a [set] on that
    key, every [get] on the key answers [null]. *)
Theorem get_expired_evicts now prefix params (cache : gmap string CachedToken) cached :
  let key := TokenCache.generateKey prefix params in
  cache !! key = Some cached →
  expiresAt cached ≤ now →
  TokenCache.get now prefix params cache = (JsNull, delete key cache)
  ∧ (∀ now0 (c : gmap string CachedToken),
       c !! key = None → (TokenCache.get now0 prefix params c).1 = JsNull)
  ∧ (∀ ops now',
       Forall (λ op, is_set op = true → op_key op ≠ key) ops →
       TokenCache.get now' prefix params
         (run_ops ops (TokenCache.get now prefix params cache).2)
       = (JsNull, run_ops ops (TokenCache.get now prefix params cache).2)).
Proof.
  intros key Hc Hexp.
  pose proof (get_expired now prefix params cache cached Hc Hexp) as Hg.
  split; [done|]. split.
  - intros now0 c Hnone. by rewrite get_miss.
  - intros ops now' Hops. apply get_miss. apply run_ops_lookup_None; [|done].
    rewrite Hg. simpl. apply lookup_delete_eq.
Qed.

Lemma get_expired_evicts_witness :
  TokenCache.get 5000 "agentFic" [("a", JsStr "1")]
    (<[TokenCache.generateKey "agentFic" [("a", JsStr "1")]
       := mkCachedToken (JsStr "old") 5000]> ∅)
  = (JsNull, delete (TokenCache.generateKey "agentFic" [("a", JsStr "1")])
       (<[TokenCache.generateKey "agentFic" [("a", JsStr "1")]
          := mkCachedToken (JsStr "old") 5000]> ∅)).
Proof.
  apply (get_expired_evicts 5000 "agentFic" [("a", JsStr "1")] _
           (mkCachedToken (JsStr "old") 5000)).
  - apply lookup_insert_eq.
  - simpl. lia.
Defined.

(** C6. A [get] right after [set] with [expiresIn > 180] answers exactly
    the token that was set: at the same reading of the clock, and at any
    reading before the stored expiry. *)
Theorem get_after_set now prefix params tok e (cache : gmap string CachedToken) :
  180 < e →
  let cache' := TokenCache.set now prefix params tok e cache in
  TokenCache.get now prefix params cache' = (tok, cache')
  ∧ ∀ now', now' < now + (e - 180) * 1000 →
      TokenCache.get now' prefix params cache' = (tok, cache').
Proof.
  intros He cache'.
  assert (H : ∀ now', now' < now + (e - 180) * 1000 →
                TokenCache.get now' prefix params cache' = (tok, cache')).
  { intros now' Hlt.
    by rewrite (get_fresh now' prefix params cache' _ (set_lookup _ _ _ _ _ _)). }
  split; [apply H; lia | exact H].
Qed.

Lemma get_after_set_witness :
  TokenCache.get 1000 "userToken" [("a", JsStr "1")]
    (TokenCache.set 1000 "userToken" [("a", JsStr "1")] (JsStr "tok3") 181 ∅)
  = (JsStr "tok3",
     TokenCache.set 1000 "userToken" [("a", JsStr "1")] (JsStr "tok3") 181 ∅).
Proof.
  destruct (get_after_set 1000 "userToken" [("a", JsStr "1")] (JsStr "tok3") 181 ∅)
    as [H _]; [lia | exact H].
Defined.

(** C10. Per-key frame. [set] changes only the entry at the key derived
    from its (prefix, params); [get] either leaves the cache as it is or
    deletes that one entry; so neither touches any other key, and in
    particular no entry of another kind. *)
Theorem cache_frame now prefix params tok e (cache : gmap string CachedToken) :
  let key := TokenCache.generateKey prefix params in
  let after_set := TokenCache.set now prefix params tok e cache in
  let after_get := (TokenCache.get now prefix params cache).2 in
  (∀ k, k ≠ key → after_set !! k = cache !! k)
  ∧ (after_get = cache ∨ after_get = delete key cache)
  ∧ (∀ k, k ≠ key → after_get !! k = cache !! k)
  ∧ (∀ prefix' params',
       is_kind prefix → is_kind prefix' → prefix' ≠ prefix →
       after_set !! TokenCache.generateKey prefix' params'
         = cache !! TokenCache.generateKey prefix' params'
       ∧ after_get !! TokenCache.generateKey prefix' params'
         = cache !! TokenCache.generateKey prefix' params').
Proof.
  intros key after_set after_get.
  split; [intros k Hk; by apply set_lookup_ne|].
  split.
  { unfold after_get, TokenCache.get. fold key.
    destruct (cache !! key) as [cached|]; [|by left].
    destruct (_ <=? _); [by right | by left]. }
  split; [intros k Hk; by apply get_lookup_ne|].
  intros prefix' params' Hk Hk' Hne.
  assert (TokenCache.generateKey prefix' params' ≠ key) as Hkey.
  { intros Heq. apply Hne. by eapply generateKey_kind_inj. }
  split; [by apply set_lookup_ne | by apply get_lookup_ne].
Qed.

Lemma cache_frame_witness :
  TokenCache.set 0 "agentFic" [] (JsStr "t") 3600
      (<[TokenCache.generateKey "blueprint" [] := mkCachedToken (JsStr "b") 9]> ∅)
    !! TokenCache.generateKey "blueprint" []
  = Some (mkCachedToken (JsStr "b") 9).
Proof.
  destruct (cache_frame 0 "agentFic" [] (JsStr "t") 3600
      (<[TokenCache.generateKey "blueprint" [] := mkCachedToken (JsStr "b") 9]> ∅))
    as (_ & _ & _ & H).
  destruct (H "blueprint" []) as [-> _].
  - right; left; reflexivity.
  - left; reflexivity.
  - discriminate.
  - apply lookup_insert_eq.
Defined.

(** ** One fetch step *)

Lemma bind_Return {E A B} (m : M E A) (k : A → M E B) s a s' :
  m s = (Return a, s') → (m ≫= k) s = k a s'.
Proof. intros H. unfold mbind, M_bind. by rewrite H. Qed.

Lemma bind_Throw {E A B} (m : M E A) (k : A → M E B) s e s' :
  m s = (Throw e, s') → (m ≫= k) s = (Throw e, s').
Proof. intros H. unfold mbind, M_bind. by rewrite H. Qed.

Section NodeFacts.

Variable encodeBody : Form → string.
Variable httpRequest : nat → IHttpRequestOptions → HttpReply.

Local Abbreviation fetchToken := (getOrFetchToken encodeBody httpRequest).
Local Abbreviation options_of := (request_options encodeBody).
Local Abbreviation run_chain := (chain encodeBody httpRequest).
Local Abbreviation run_execute := (@execute encodeBody httpRequest).

(** What one call of [getOrFetchToken] does, branch by branch. *)
Lemma getOrFetchToken_unfold ep prefix form d s :
  fetchToken ep prefix form d s =
  let g := TokenCache.get (clock s) prefix form (tokenCache s) in
  let st := cacheStats s in
  if truthy g.1 then
    (Return g.1,
     mkState g.2 (clock s) (sent s)
       (mkStats (S (hits st)) (misses st) (obj_set (timings st) prefix 0)))
  else
    let options := options_of ep form in
    let reply := httpRequest (length (sent s)) options in
    let now' := clock s + Z.of_N (latency reply) in
    match outcome reply with
    | Rejected err =>
        (Throw err,
         mkState g.2 now' (sent s ++ [options])
           (mkStats (hits st) (S (misses st)) (timings st)))
    | Resolved r =>
        (Return (access_token r),
         mkState
           (TokenCache.set now' prefix form (access_token r)
              (num_or (expires_in r) d) g.2)
           now' (sent s ++ [options])
           (mkStats (hits st) (S (misses st))
              (obj_set (timings st) prefix (Z.of_N (latency reply)))))
    end.
Proof.
  unfold getOrFetchToken, mbind, M_bind, tokenCache_get.
  destruct (TokenCache.get (clock s) prefix form (tokenCache s)) as [r c].
  simpl. destruct (truthy r); simpl; [reflexivity|].
  unfold request. simpl.
  destruct (outcome _) as [err|resp]; simpl; [reflexivity|].
  unfold with_cacheStats, with_tokenCache. simpl.
  replace (clock s + Z.of_N (latency (httpRequest (length (sent s))
             (options_of ep form))) - clock s)
    with (Z.of_N (latency (httpRequest (length (sent s))
             (options_of ep form)))) by lia.
  reflexivity.
Qed.

(** The cache answer that sends [getOrFetchToken] to the network: a
    miss, an expired entry, or a stored value that is falsy. *)
Lemma fetchToken_rejected ep prefix form d s err :
  truthy (TokenCache.get (clock s) prefix form (tokenCache s)).1 = false →
  outcome (httpRequest (length (sent s)) (options_of ep form)) = Rejected err →
  fetchToken ep prefix form d s
  = (Throw err,
     mkState (TokenCache.get (clock s) prefix form (tokenCache s)).2
       (clock s + Z.of_N (latency (httpRequest (length (sent s)) (options_of ep form))))
       (sent s ++ [options_of ep form])
       (mkStats (hits (cacheStats s)) (S (misses (cacheStats s)))
          (timings (cacheStats s)))).
Proof.
  intros Hg Ho. rewrite getOrFetchToken_unfold. cbv zeta. by rewrite Hg, Ho.
Qed.

Lemma fetchToken_resolved ep prefix form d s r :
  truthy (TokenCache.get (clock s) prefix form (tokenCache s)).1 = false →
  outcome (httpRequest (length (sent s)) (options_of ep form)) = Resolved r →
  fetchToken ep prefix form d s
  = (Return (access_token r),
     let now' :=
       clock s + Z.of_N (latency (httpRequest (length (sent s)) (options_of ep form))) in
     mkState
       (TokenCache.set now' prefix form (access_token r) (num_or (expires_in r) d)
          (TokenCache.get (clock s) prefix form (tokenCache s)).2)
       now' (sent s ++ [options_of ep form])
       (mkStats (hits (cacheStats s)) (S (misses (cacheStats s)))
          (obj_set (timings (cacheStats s)) prefix
             (Z.of_N (latency (httpRequest (length (sent s)) (options_of ep form))))))).
Proof.
  intros Hg Ho. rewrite getOrFetchToken_unfold. cbv zeta. by rewrite Hg, Ho.
Qed.

Lemma fetchToken_hit ep prefix form d s cached :
  tokenCache s !! TokenCache.generateKey prefix form = Some cached →
  clock s < expiresAt cached →
  truthy (token cached) = true →
  fetchToken ep prefix form d s
  = (Return (token cached),
     mkState (tokenCache s) (clock s) (sent s)
       (mkStats (S (hits (cacheStats s))) (misses (cacheStats s))
          (obj_set (timings (cacheStats s)) prefix 0))).
Proof.
  intros Hl Hfresh Ht. rewrite getOrFetchToken_unfold. cbv zeta.
  rewrite (get_fresh _ _ _ _ _ Hl Hfresh). simpl. by rewrite Ht.
Qed.

(** A step that goes to the network logs exactly one request. *)
Lemma fetchToken_sent ep prefix form d s :
  truthy (TokenCache.get (clock s) prefix form (tokenCache s)).1 = false →
  sent (fetchToken ep prefix form d s).2 = (sent s ++ [options_of ep form])%list.
Proof.
  intros Hg.
  destruct (outcome (httpRequest (length (sent s)) (options_of ep form)))
    as [err|r] eqn:Ho.
  - by rewrite (fetchToken_rejected _ _ _ _ _ err Hg Ho).
  - by rewrite (fetchToken_resolved _ _ _ _ _ r Hg Ho).
Qed.

(** C1, as the code has it. In a fetch step (the cache gave nothing
    usable): when the HTTP helper rejects, which it does on a status
    outside 200-299 and on transport failures, the step fails with the
    helper's error, the very value with its status and response body,
    after counting a miss and logging the request, and it stores
    nothing; when the helper resolves, the body is not inspected: its
    [access_token], even a missing one, is stored under the step's key
    and returned. *)
Theorem fetch_step_outcomes ep prefix form d s :
  truthy (TokenCache.get (clock s) prefix form (tokenCache s)).1 = false →
  let after_get := (TokenCache.get (clock s) prefix form (tokenCache s)).2 in
  let reply := httpRequest (length (sent s)) (options_of ep form) in
  let res := fetchToken ep prefix form d s in
  sent res.2 = (sent s ++ [options_of ep form])%list
  ∧ (∀ err, outcome reply = Rejected err →
       res.1 = Throw err
       ∧ tokenCache res.2 = after_get
       ∧ misses (cacheStats res.2) = S (misses (cacheStats s)))
  ∧ (∀ r, outcome reply = Resolved r →
       res.1 = Return (access_token r)
       ∧ tokenCache res.2 !! TokenCache.generateKey prefix form
         = Some (mkCachedToken (access_token r)
                   (clock res.2 + (num_or (expires_in r) d - 180) * 1000))).
Proof.
  intros Hg after_get reply res. split; [|split].
  - by apply fetchToken_sent.
  - intros err Ho. subst res.
    by rewrite (fetchToken_rejected _ _ _ _ _ err Hg Ho).
  - intros r Ho. subst res.
    rewrite (fetchToken_resolved _ _ _ _ _ r Hg Ho). simpl.
    split; [done|]. apply set_lookup.
Qed.

(** C8. A fetch step whose response has no [expires_in] stores the token
    with the 3600-second default: the entry expires 3420 seconds after
    it was written. Before that instant [get] answers the token (and a
    new step with a usable token is a hit that issues no request); from
    that instant on [get] answers [null] and a new step fetches again. *)
Theorem default_expiry_when_absent ep prefix form s r :
  truthy (TokenCache.get (clock s) prefix form (tokenCache s)).1 = false →
  outcome (httpRequest (length (sent s)) (options_of ep form)) = Resolved r →
  expires_in r = None →
  let res := fetchToken ep prefix form 3600 s in
  let written := clock res.2 in
  res.1 = Return (access_token r)
  ∧ tokenCache res.2 !! TokenCache.generateKey prefix form
    = Some (mkCachedToken (access_token r) (written + 3420 * 1000))
  ∧ (∀ t, t < written + 3420 * 1000 →
       TokenCache.get t prefix form (tokenCache res.2)
       = (access_token r, tokenCache res.2)
       ∧ (truthy (access_token r) = true →
          (fetchToken ep prefix form 3600 (with_clock t res.2)).1
            = Return (access_token r)
          ∧ sent (fetchToken ep prefix form 3600 (with_clock t res.2)).2
            = sent res.2))
  ∧ (∀ t, written + 3420 * 1000 ≤ t →
       (TokenCache.get t prefix form (tokenCache res.2)).1 = JsNull
       ∧ sent (fetchToken ep prefix form 3600 (with_clock t res.2)).2
         = (sent res.2 ++ [options_of ep form])%list).
Proof.
  intros Hg Ho He res written.
  assert (Hl : tokenCache res.2 !! TokenCache.generateKey prefix form
               = Some (mkCachedToken (access_token r) (written + 3420 * 1000))).
  { subst written res. rewrite (fetchToken_resolved _ _ _ _ _ r Hg Ho). simpl.
    rewrite set_lookup, He. simpl. do 2 f_equal. }
  split; [|split; [done|split]].
  - subst res. by rewrite (fetchToken_resolved _ _ _ _ _ r Hg Ho).
  - intros t Ht.
    split; [by rewrite (get_fresh _ _ _ _ _ Hl) by (simpl; lia)|].
    intros Htok.
    by rewrite (fetchToken_hit ep prefix form 3600 (with_clock t res.2) _ Hl)
      by (simpl; first [lia | done]).
  - intros t Ht.
    assert (Hx : TokenCache.get t prefix form (tokenCache res.2)
                 = (JsNull, delete (TokenCache.generateKey prefix form) (tokenCache res.2))).
    { apply (get_expired _ _ _ _ _ Hl). simpl. lia. }
    split; [by rewrite Hx|].
    apply (fetchToken_sent ep prefix form 3600 (with_clock t res.2)).
    simpl. by rewrite Hx.
Qed.

(** C9. A response whose [expires_in] is [0] is treated as one without
    the field: the token is stored with the 3600-second default, so the
    entry is fresh when written rather than already expired. *)
Theorem zero_expiry_is_default ep prefix form s r :
  truthy (TokenCache.get (clock s) prefix form (tokenCache s)).1 = false →
  outcome (httpRequest (length (sent s)) (options_of ep form)) = Resolved r →
  expires_in r = Some 0 →
  let res := fetchToken ep prefix form 3600 s in
  num_or (expires_in r) 3600 = num_or None 3600
  ∧ res.1 = Return (access_token r)
  ∧ tokenCache res.2
    = TokenCache.set (clock res.2) prefix form (access_token r) 3600
        (TokenCache.get (clock s) prefix form (tokenCache s)).2
  ∧ tokenCache res.2 !! TokenCache.generateKey prefix form
    = Some (mkCachedToken (access_token r) (clock res.2 + 3420 * 1000))
  ∧ TokenCache.get (clock res.2) prefix form (tokenCache res.2)
    = (access_token r, tokenCache res.2).
Proof.
  intros Hg Ho He res.
  assert (Hres : res = fetchToken ep prefix form 3600 s) by done.
  rewrite (fetchToken_resolved _ _ _ _ _ r Hg Ho) in Hres.
  rewrite He in *. simpl in Hres.
  split; [done|]. rewrite Hres. simpl. split; [done|]. split; [done|].
  assert (Hl : ∀ now tok c,
    TokenCache.set now prefix form tok 3600 c !! TokenCache.generateKey prefix form
    = Some (mkCachedToken tok (now + 3420 * 1000))).
  { intros. rewrite set_lookup. do 2 f_equal. }
  split; [apply Hl|].
  rewrite (get_fresh _ _ _ _ _ (Hl _ _ _)); [done|]. simpl. lia.
Qed.

(** ** The chain *)

Lemma fetch_miss_resolved ep prefix form s r ms :
  tokenCache s !! TokenCache.generateKey prefix form = None →
  httpRequest (length (sent s)) (options_of ep form) = mkReply (Resolved r) ms →
  fetchToken ep prefix form 3600 s
  = (Return (access_token r), after_fetch (options_of ep form) prefix form r ms s).
Proof.
  intros Hl Hr.
  rewrite (fetchToken_resolved ep prefix form 3600 s r);
    rewrite ?(get_miss _ _ _ _ Hl), ?Hr; done.
Qed.

Lemma fetch_miss_rejected ep prefix form s err ms :
  tokenCache s !! TokenCache.generateKey prefix form = None →
  httpRequest (length (sent s)) (options_of ep form) = mkReply (Rejected err) ms →
  fetchToken ep prefix form 3600 s
  = (Throw err,
     mkState (tokenCache s) (clock s + Z.of_N ms)
       (sent s ++ [options_of ep form])
       (mkStats (hits (cacheStats s)) (S (misses (cacheStats s)))
          (timings (cacheStats s)))).
Proof.
  intros Hl Hr.
  rewrite (fetchToken_rejected ep prefix form 3600 s err);
    rewrite ?(get_miss _ _ _ _ Hl), ?Hr; done.
Qed.

Lemma fetch_hit ep prefix form s cached :
  tokenCache s !! TokenCache.generateKey prefix form = Some cached →
  clock s < expiresAt cached →
  truthy (token cached) = true →
  fetchToken ep prefix form 3600 s = (Return (token cached), after_hit prefix s).
Proof. apply fetchToken_hit. Qed.

Lemma truthy_JsStr tok : tok ≠ "" → truthy (JsStr tok) = true.
Proof.
  intros H. simpl. destruct (String.eqb_spec tok ""); [done|done].
Qed.

Lemma grows_ret {E A} (a : A) : grows (mret a : M E A).
Proof. intros s. exists []. simpl. by rewrite app_nil_r. Qed.

Lemma grows_bind {E A B} (m : M E A) (k : A → M E B) :
  grows m → (∀ a, grows (k a)) → grows (m ≫= k).
Proof.
  intros Hm Hk s. unfold mbind, M_bind.
  destruct (Hm s) as [t1 H1]. destruct (m s) as [[a|e] s1]; simpl in *.
  - destruct (Hk a s1) as [t2 H2]. exists (t1 ++ t2)%list.
    by rewrite H2, H1, app_assoc.
  - by exists t1.
Qed.

Lemma grows_fetchToken ep prefix form d : grows (fetchToken ep prefix form d).
Proof.
  intros s. rewrite getOrFetchToken_unfold. cbv zeta.
  destruct (truthy _).
  - exists []. simpl. by rewrite app_nil_r.
  - destruct (outcome _); by eexists.
Qed.

Lemma grows_chain c : grows (run_chain c).
Proof.
  unfold chain.
  repeat (apply grows_bind; [apply grows_fetchToken|intros ?]).
  apply grows_bind; [|intros ?; apply grows_ret].
  intros s. exists []. simpl. by rewrite app_nil_r.
Qed.

Lemma grows_for_items {Item} c (items : list Item) acc :
  grows (for_items encodeBody httpRequest c items acc).
Proof.
  revert acc. induction items as [|i items IH]; intros acc; simpl.
  - apply grows_ret.
  - apply grows_bind; [apply grows_chain|]. intros r. apply IH.
Qed.

Lemma kinds_differ p1 p2 f1 f2 :
  is_kind p1 → is_kind p2 → p1 ≠ p2 →
  TokenCache.generateKey p1 f1 ≠ TokenCache.generateKey p2 f2.
Proof. intros H1 H2 Hne Heq. apply Hne. by eapply generateKey_kind_inj. Qed.

Lemma kind_blueprint : is_kind "blueprint".
Proof. by left. Qed.
Lemma kind_agentFic : is_kind "agentFic".
Proof. by right; left. Qed.
Lemma kind_userToken : is_kind "userToken".
Proof. by right; right. Qed.

Create HintDb kinds.
#[local] Hint Resolve kind_blueprint kind_agentFic kind_userToken : kinds.

Ltac other_kind :=
  apply kinds_differ; [auto with kinds | auto with kinds | discriminate].

(** The record the chain pushes, from the three tokens and the
    statistics at that point. *)
Lemma chain_steps c s tok1 s1 tok2 s2 tok3 s3 :
  let ep := tokenEndpoint c in
  let userScope := str_or (scope c) DEFAULT_SCOPE in
  fetchToken ep "blueprint" (blueprintForm c) 3600 s = (Return tok1, s1) →
  fetchToken ep "agentFic" (agentFicForm c tok1) 3600 s1 = (Return tok2, s2) →
  fetchToken ep "userToken" (userTokenForm c userScope tok1 tok2) 3600 s2
    = (Return tok3, s3) →
  run_chain c s
  = (Return (mkTokenItem tok3 tok1 tok2 userScope
       (mkCacheInfo "0.1.6" (hits (cacheStats s3)) (misses (cacheStats s3))
          (timings (cacheStats s3)) (sum_values (timings (cacheStats s3))))),
     s3).
Proof.
  intros ep userScope H1 H2 H3. unfold chain.
  rewrite (bind_Return _ _ _ _ _ H1).
  rewrite (bind_Return _ _ _ _ _ H2).
  rewrite (bind_Return _ _ _ _ _ H3).
  reflexivity.
Qed.

Lemma execute_one {Item} c (i : Item) s out s' :
  run_chain c (with_cacheStats (mkStats 0 0 []) s) = (Return out, s') →
  run_execute c [i] s
  = (Return [alias_timings (timings (cacheStats s')) out], s').
Proof.
  intros H. unfold execute.
  rewrite (bind_Return _ _ s () (with_cacheStats (mkStats 0 0 []) s)) by done.
  rewrite (bind_Return (for_items _ _ c [i] []) _ _ [out] s').
  2: { simpl. by rewrite (bind_Return _ _ _ _ _ H). }
  reflexivity.
Qed.

Lemma length_snoc {A} (l : list A) x : length (l ++ [x]) = S (length l).
Proof. rewrite length_app. simpl. lia. Qed.

(** The first run on a cold cache: three misses, three requests, and
    the state they leave. No assumption on the tokens is needed here. *)
Lemma chain_cold c s r1 r2 r3 ms1 ms2 ms3 :
  let ep := tokenEndpoint c in
  let userScope := str_or (scope c) DEFAULT_SCOPE in
  let f1 := blueprintForm c in
  let f2 := agentFicForm c (access_token r1) in
  let f3 := userTokenForm c userScope (access_token r1) (access_token r2) in
  let n := length (sent s) in
  tokenCache s = ∅ →
  httpRequest n (options_of ep f1) = mkReply (Resolved r1) ms1 →
  httpRequest (S n) (options_of ep f2) = mkReply (Resolved r2) ms2 →
  httpRequest (S (S n)) (options_of ep f3) = mkReply (Resolved r3) ms3 →
  let s1 := after_fetch (options_of ep f1) "blueprint" f1 r1 ms1 s in
  let s2 := after_fetch (options_of ep f2) "agentFic" f2 r2 ms2 s1 in
  let s3 := after_fetch (options_of ep f3) "userToken" f3 r3 ms3 s2 in
  run_chain c s
  = (Return (mkTokenItem (access_token r3) (access_token r1) (access_token r2)
       userScope
       (mkCacheInfo "0.1.6" (hits (cacheStats s3)) (misses (cacheStats s3))
          (timings (cacheStats s3)) (sum_values (timings (cacheStats s3))))),
     s3).
Proof.
  intros ep userScope f1 f2 f3 n Hcold H1 H2 H3 s1 s2 s3.
  apply chain_steps with (s1 := s1) (s2 := s2).
  - apply fetch_miss_resolved; [|done]. rewrite Hcold. apply lookup_empty.
  - apply fetch_miss_resolved.
    + subst s1. simpl. rewrite set_lookup_ne by other_kind.
      rewrite Hcold. apply lookup_empty.
    + subst s1. simpl. by rewrite length_snoc.
  - apply fetch_miss_resolved.
    + subst s2 s1. simpl. rewrite !set_lookup_ne by other_kind.
      rewrite Hcold. apply lookup_empty.
    + subst s2 s1. simpl. by rewrite !length_snoc.
Qed.

(** A run on a cache that holds a fresh, usable token for each of the
    three keys: three hits, no request. *)
Lemma chain_warm c s ct1 ct2 ct3 :
  let ep := tokenEndpoint c in
  let userScope := str_or (scope c) DEFAULT_SCOPE in
  let f1 := blueprintForm c in
  let f2 := agentFicForm c (token ct1) in
  let f3 := userTokenForm c userScope (token ct1) (token ct2) in
  tokenCache s !! TokenCache.generateKey "blueprint" f1 = Some ct1 →
  tokenCache s !! TokenCache.generateKey "agentFic" f2 = Some ct2 →
  tokenCache s !! TokenCache.generateKey "userToken" f3 = Some ct3 →
  clock s < expiresAt ct1 → clock s < expiresAt ct2 → clock s < expiresAt ct3 →
  truthy (token ct1) = true → truthy (token ct2) = true →
  truthy (token ct3) = true →
  let s3 := after_hit "userToken" (after_hit "agentFic" (after_hit "blueprint" s)) in
  run_chain c s
  = (Return (mkTokenItem (token ct3) (token ct1) (token ct2) userScope
       (mkCacheInfo "0.1.6" (hits (cacheStats s3)) (misses (cacheStats s3))
          (timings (cacheStats s3)) (sum_values (timings (cacheStats s3))))),
     s3).
Proof.
  intros ep userScope f1 f2 f3 L1 L2 L3 F1 F2 F3 T1 T2 T3 s3.
  apply chain_steps with (s1 := after_hit "blueprint" s)
                         (s2 := after_hit "agentFic" (after_hit "blueprint" s));
    by apply fetch_hit.
Qed.

(** C7, as the code has it. Two runs of [execute] with the same
    credentials, the first on a cold cache, the endpoint answering the
    three requests with access tokens that are non-empty strings, and
    every cache entry still fresh at the clock reading [t] of the
    second run: the first run issues exactly three requests and the
    second none, both return the same blueprint, agent and user tokens,
    and the reported counters are 0 hits / 3 misses, then
    3 hits / 0 misses: 3 and 3 in aggregate. Without the condition on
    the tokens the second run fetches again: [getOrFetchToken] tests
    the cached value for truthiness. *)
Theorem chain_twice_cold_then_warm {Item} c (i1 i2 : Item) s0
    tok1 tok2 tok3 e1 e2 e3 ms1 ms2 ms3 t :
  let ep := tokenEndpoint c in
  let userScope := str_or (scope c) DEFAULT_SCOPE in
  let o1 := options_of ep (blueprintForm c) in
  let o2 := options_of ep (agentFicForm c (JsStr tok1)) in
  let o3 := options_of ep (userTokenForm c userScope (JsStr tok1) (JsStr tok2)) in
  let n := length (sent s0) in
  tokenCache s0 = ∅ →
  httpRequest n o1 = mkReply (Resolved (mkTokenResponse (JsStr tok1) e1)) ms1 →
  httpRequest (S n) o2 = mkReply (Resolved (mkTokenResponse (JsStr tok2) e2)) ms2 →
  httpRequest (S (S n)) o3 = mkReply (Resolved (mkTokenResponse (JsStr tok3) e3)) ms3 →
  tok1 ≠ "" → tok2 ≠ "" → tok3 ≠ "" →
  let run1 := run_execute c [i1] s0 in
  map_Forall (λ _ cached, t < expiresAt cached) (tokenCache run1.2) →
  let run2 := run_execute c [i2] (with_clock t run1.2) in
  ∃ out1 out2,
    run1.1 = Return [out1] ∧ run2.1 = Return [out2]
    ∧ sent run1.2 = (sent s0 ++ [o1; o2; o3])%list
    ∧ sent run2.2 = sent run1.2
    ∧ item_blueprint_token out1 = JsStr tok1
    ∧ item_agent_token out1 = JsStr tok2
    ∧ item_access_token out1 = JsStr tok3
    ∧ item_blueprint_token out2 = item_blueprint_token out1
    ∧ item_agent_token out2 = item_agent_token out1
    ∧ item_access_token out2 = item_access_token out1
    ∧ cache_hits (item_cache_info out1) = 0%nat
    ∧ cache_misses (item_cache_info out1) = 3%nat
    ∧ cache_hits (item_cache_info out2) = 3%nat
    ∧ cache_misses (item_cache_info out2) = 0%nat
    ∧ (cache_hits (item_cache_info out1) + cache_hits (item_cache_info out2) = 3)%nat
    ∧ (cache_misses (item_cache_info out1) + cache_misses (item_cache_info out2) = 3)%nat.
Proof.
  intros ep userScope o1 o2 o3 n Hcold H1 H2 H3 N1 N2 N3 run1.
  pose proof (chain_cold c (with_cacheStats (mkStats 0 0 []) s0)
                _ _ _ ms1 ms2 ms3 Hcold H1 H2 H3) as Hc.
  cbv zeta in Hc. simpl access_token in Hc.
  pose proof (execute_one c i1 s0 _ _ Hc) as Hr1.
  subst run1. rewrite Hr1. simpl snd. intros Hfresh run2.
  set (s3 := after_fetch _ "userToken" _ _ ms3 _) in *.
  assert (L3 : tokenCache s3 !! TokenCache.generateKey "userToken"
            (userTokenForm c userScope (JsStr tok1) (JsStr tok2))
          = Some (mkCachedToken (JsStr tok3)
              (clock s3 + (num_or e3 3600 - 180) * 1000))).
  { subst s3. simpl. apply set_lookup. }
  assert (L2 : ∃ x, tokenCache s3 !! TokenCache.generateKey "agentFic"
            (agentFicForm c (JsStr tok1)) = Some (mkCachedToken (JsStr tok2) x)).
  { subst s3. simpl. rewrite set_lookup_ne by other_kind.
    eexists. apply set_lookup. }
  assert (L1 : ∃ x, tokenCache s3 !! TokenCache.generateKey "blueprint"
            (blueprintForm c) = Some (mkCachedToken (JsStr tok1) x)).
  { subst s3. simpl. rewrite !set_lookup_ne by other_kind.
    eexists. apply set_lookup. }
  destruct L1 as [x1 L1]. destruct L2 as [x2 L2].
  pose proof (map_Forall_lookup_1 _ _ _ _ Hfresh L1) as F1.
  pose proof (map_Forall_lookup_1 _ _ _ _ Hfresh L2) as F2.
  pose proof (map_Forall_lookup_1 _ _ _ _ Hfresh L3) as F3.
  simpl in F1, F2, F3.
  pose proof (chain_warm c (with_cacheStats (mkStats 0 0 []) (with_clock t s3))
                _ _ _ L1 L2 L3 F1 F2 F3
                (truthy_JsStr _ N1) (truthy_JsStr _ N2) (truthy_JsStr _ N3)) as Hw.
  cbv zeta in Hw. simpl token in Hw.
  pose proof (execute_one c i2 (with_clock t s3) _ _ Hw) as Hr2.
  subst run2. rewrite Hr2.
  eexists _, _. split; [reflexivity|]. split; [reflexivity|].
  split.
  { subst s3. simpl. by rewrite <- !app_assoc. }
  repeat split.
Qed.

(** ** A failing step *)

Lemma starts_bind {E A B} (m : M E A) (k : A → M E B) s o :
  (∃ tail, sent (m s).2 = (sent s ++ o :: tail)%list) →
  (∀ a, grows (k a)) →
  ∃ tail, sent ((m ≫= k) s).2 = (sent s ++ o :: tail)%list.
Proof.
  intros [t1 H1] Hk. unfold mbind, M_bind.
  destruct (m s) as [[a|e] s1]; simpl in *.
  - destruct (Hk a s1) as [t2 H2]. exists (t1 ++ t2)%list.
    rewrite H2, H1. by rewrite <- app_assoc.
  - by exists t1.
Qed.

Lemma execute_reset {Item} c (items : list Item) s :
  run_execute c items s
  = (for_items encodeBody httpRequest c items [] ≫= λ returnData,
       st ← gets cacheStats;
       mret (alias_timings (timings st) <$> returnData))
      (with_cacheStats (mkStats 0 0 []) s).
Proof. reflexivity. Qed.

Lemma execute_throws {Item} c (i : Item) items s err s' :
  run_chain c (with_cacheStats (mkStats 0 0 []) s) = (Throw err, s') →
  run_execute c (i :: items) s = (Throw err, s').
Proof.
  intros H. unfold execute.
  rewrite (bind_Return _ _ s () (with_cacheStats (mkStats 0 0 []) s)) by done.
  apply bind_Throw. simpl. by apply bind_Throw.
Qed.

(** The answer of [get] depends on the entry under its key only. *)
Lemma get_answer_ext now prefix params (c c' : gmap string CachedToken) :
  c !! TokenCache.generateKey prefix params
  = c' !! TokenCache.generateKey prefix params →
  (TokenCache.get now prefix params c).1 = (TokenCache.get now prefix params c').1.
Proof.
  intros H. unfold TokenCache.get. rewrite H.
  destruct (c' !! _) as [cached|]; [|done]. by destruct (_ <=? _).
Qed.

(** A [set] after a [get] on the same key writes over whatever the
    [get] left. *)
Lemma set_after_get now0 now prefix params tok e (c : gmap string CachedToken) :
  TokenCache.set now prefix params tok e (TokenCache.get now0 prefix params c).2
  = TokenCache.set now prefix params tok e c.
Proof.
  unfold TokenCache.set, TokenCache.get.
  destruct (c !! _) as [cached|]; [|done].
  destruct (_ <=? _); [|done]. simpl. apply insert_delete_eq.
Qed.

(** Once [get] has given nothing usable, it gives nothing usable at any
    later or earlier reading, on the cache as that [get] left it. *)
Lemma get_falsy_stays now1 now prefix params (c : gmap string CachedToken) :
  truthy (TokenCache.get now1 prefix params c).1 = false →
  truthy (TokenCache.get now prefix params
            (TokenCache.get now1 prefix params c).2).1 = false.
Proof.
  unfold TokenCache.get.
  destruct (c !! TokenCache.generateKey prefix params) as [cached|] eqn:Hl.
  - destruct (expiresAt cached <=? now1); simpl.
    + intros _. by rewrite lookup_delete_eq.
    + intros Hf. rewrite Hl. by destruct (expiresAt cached <=? now).
  - simpl. intros _. by rewrite Hl.
Qed.

(** C2, as the code has it. The blueprint step fetched a token and the
    agentFic step, finding nothing usable in the cache, has its request
    rejected (for instance with HTTP 401). Then [execute] throws: it
    returns no item at all; what it throws is the helper's error for
    that request, the very value, with the status it carries; the
    userToken request is never issued. The cache is the initial one
    with the blueprint entry written, less the agentFic entry if that
    one had expired: no other key is touched. A retry while the
    blueprint entry is fresh (and the token usable) is served the
    blueprint token from the cache: the first request it issues is the
    agentFic one. *)
Theorem agentFic_failure_aborts {Item} c (i : Item) items s0 r1 ms1 err ms2 :
  let ep := tokenEndpoint c in
  let b := access_token r1 in
  let o1 := options_of ep (blueprintForm c) in
  let o2 := options_of ep (agentFicForm c b) in
  let k1 := TokenCache.generateKey "blueprint" (blueprintForm c) in
  let k2 := TokenCache.generateKey "agentFic" (agentFicForm c b) in
  let n := length (sent s0) in
  let t1 := clock s0 + Z.of_N ms1 in
  truthy (TokenCache.get (clock s0) "blueprint" (blueprintForm c) (tokenCache s0)).1
    = false →
  httpRequest n o1 = mkReply (Resolved r1) ms1 →
  truthy (TokenCache.get t1 "agentFic" (agentFicForm c b) (tokenCache s0)).1
    = false →
  httpRequest (S n) o2 = mkReply (Rejected err) ms2 →
  let run1 := run_execute c (i :: items) s0 in
  let entry := mkCachedToken b (t1 + (num_or (expires_in r1) 3600 - 180) * 1000) in
  run1.1 = Throw err
  ∧ sent run1.2 = (sent s0 ++ [o1; o2])%list
  ∧ tokenCache run1.2
    = (TokenCache.get t1 "agentFic" (agentFicForm c b)
         (<[k1 := entry]> (tokenCache s0))).2
  ∧ tokenCache run1.2 !! k1 = Some entry
  ∧ (tokenCache run1.2 !! k2 = tokenCache s0 !! k2 ∨ tokenCache run1.2 !! k2 = None)
  ∧ (∀ k, k ≠ k1 → k ≠ k2 → tokenCache run1.2 !! k = tokenCache s0 !! k)
  ∧ (tokenCache s0 !! k2 = None → tokenCache run1.2 = <[k1 := entry]> (tokenCache s0))
  ∧ (∀ (i' : Item) items' t,
       truthy b = true → t < expiresAt entry →
       let retry := with_clock t run1.2 in
       fetchToken ep "blueprint" (blueprintForm c) 3600
         (with_cacheStats (mkStats 0 0 []) retry)
       = (Return b,
          after_hit "blueprint" (with_cacheStats (mkStats 0 0 []) retry))
       ∧ ∃ tail, sent (run_execute c (i' :: items') retry).2
                 = (sent run1.2 ++ o2 :: tail)%list).
Proof.
  intros ep b o1 o2 k1 k2 n t1 Hg1 H1 Hg2 H2 run1 entry.
  set (s0' := with_cacheStats (mkStats 0 0 []) s0).
  set (c1 := <[k1 := entry]> (tokenCache s0)).
  set (s1 := mkState c1 t1 (sent s0 ++ [o1])
               (mkStats 0 1 [("blueprint", Z.of_N ms1)])).
  assert (E1 : fetchToken ep "blueprint" (blueprintForm c) 3600 s0' = (Return b, s1)).
  { rewrite (fetchToken_resolved ep "blueprint" (blueprintForm c) 3600 s0' r1 Hg1).
    2: { simpl. fold ep o1 n. by rewrite H1. }
    simpl. fold ep o1 n. rewrite H1. simpl. by rewrite set_after_get. }
  assert (Hk : k2 ≠ k1) by (subst k1 k2; other_kind).
  assert (Hl2 : c1 !! k2 = tokenCache s0 !! k2).
  { subst c1. by rewrite lookup_insert_ne. }
  assert (Hg2' : truthy (TokenCache.get (clock s1) "agentFic" (agentFicForm c b)
                           (tokenCache s1)).1 = false).
  { simpl. by rewrite (get_answer_ext _ _ _ c1 (tokenCache s0) Hl2). }
  set (cf := (TokenCache.get t1 "agentFic" (agentFicForm c b) c1).2).
  set (s2 := mkState cf (t1 + Z.of_N ms2) (sent s1 ++ [o2])
               (mkStats 0 2 [("blueprint", Z.of_N ms1)])).
  assert (E2 : fetchToken ep "agentFic" (agentFicForm c b) 3600 s1 = (Throw err, s2)).
  { rewrite (fetchToken_rejected ep "agentFic" (agentFicForm c b) 3600 s1 err Hg2').
    2: { simpl. rewrite length_snoc. fold ep o2 n. by rewrite H2. }
    simpl. rewrite length_snoc. fold ep o2 n. by rewrite H2. }
  assert (Hc : run_chain c s0' = (Throw err, s2)).
  { unfold chain. rewrite (bind_Return _ _ _ _ _ E1). by apply bind_Throw. }
  assert (Hrun : run1 = run_execute c (i :: items) s0) by done.
  rewrite (execute_throws c i items s0 err _ Hc) in Hrun.
  rewrite Hrun. simpl fst. simpl snd. simpl tokenCache.
  assert (Lk1 : cf !! k1 = Some entry).
  { subst cf. rewrite get_lookup_ne by done. subst c1. apply lookup_insert_eq. }
  split; [done|]. split; [simpl; by rewrite <- app_assoc|].
  split; [done|]. split; [done|].
  split.
  { subst cf. unfold TokenCache.get. fold k2. rewrite Hl2.
    destruct (tokenCache s0 !! k2) as [cached|]; [|by left].
    destruct (_ <=? _); simpl; [right; apply lookup_delete_eq | by left]. }
  split.
  { intros k N1 N2. subst cf. rewrite get_lookup_ne by done.
    subst c1. by rewrite lookup_insert_ne. }
  split.
  { intros Hnone. subst cf. rewrite get_miss; [done|].
    fold k2. by rewrite Hl2. }
  intros i' items' t Htok Hfresh. cbv zeta.
  set (sr := with_cacheStats (mkStats 0 0 []) (with_clock t s2)).
  assert (Ehit : fetchToken ep "blueprint" (blueprintForm c) 3600 sr
                 = (Return b, after_hit "blueprint" sr)).
  { by apply (fetch_hit ep "blueprint" (blueprintForm c) sr entry). }
  split; [exact Ehit|].
  rewrite execute_reset. fold sr.
  match goal with
  | |- ∃ tail, sent ?X = _ =>
      change (∃ tail, sent X = (sent sr ++ o2 :: tail)%list)
  end.
  apply starts_bind; [|intros; apply grows_bind; [|intros; apply grows_ret];
                       intros ?; exists []; simpl; by rewrite app_nil_r].
  simpl for_items.
  apply starts_bind; [|intros; apply grows_for_items].
  unfold chain. fold sr. rewrite (bind_Return _ _ _ _ _ Ehit).
  apply (starts_bind _ _ (after_hit "blueprint" sr) o2).
  2: { intros a. apply grows_bind; [apply grows_fetchToken|]. intros b0.
       apply grows_bind; [|intros; apply grows_ret].
       intros ?; exists []; simpl; by rewrite app_nil_r. }
  exists [].
  apply (fetchToken_sent ep "agentFic" (agentFicForm c b) 3600
           (after_hit "blueprint" sr)).
  simpl. subst cf. apply get_falsy_stays.
  by rewrite (get_answer_ext _ _ _ c1 (tokenCache s0) Hl2).
Qed.

End NodeFacts.

(** ** The theorems at work on concrete hosts *)

Lemma fetch_step_outcomes_witness :
  (getOrFetchToken Demo.encodeBody Demo.endpoint_401_first
     "https://login.example/token" "blueprint"
     (blueprintForm Demo.credentials) 3600 (Demo.cold 0)).1
  = Throw Demo.unauthorized.
Proof.
  destruct (fetch_step_outcomes Demo.encodeBody Demo.endpoint_401_first
              "https://login.example/token" "blueprint"
              (blueprintForm Demo.credentials) 3600 (Demo.cold 0))
    as (_ & H & _); [reflexivity|].
  destruct (H Demo.unauthorized) as (H1 & _); [reflexivity | exact H1].
Defined.

(** C1 as stated fails: the endpoint answers 200 with a body that has no
    [access_token]; the step does not fail, it returns [undefined] and
    stores it as the blueprint token. *)
Lemma missing_access_token_is_cached :
  let res := getOrFetchToken Demo.encodeBody Demo.endpoint_no_token
               "https://login.example/token" "blueprint"
               (blueprintForm Demo.credentials) 3600 (Demo.cold 0) in
  res.1 = Return JsUndefined
  ∧ tokenCache res.2
      !! TokenCache.generateKey "blueprint" (blueprintForm Demo.credentials)
    = Some (mkCachedToken JsUndefined 3420010)
  ∧ ¬ ∃ err, res.1 = Throw err.
Proof.
  split; [vm_compute; reflexivity|]. split; [vm_compute; reflexivity|].
  intros [err H]. vm_compute in H. discriminate H.
Qed.

Lemma default_expiry_when_absent_witness :
  TokenCache.get (40 + 3419 * 1000) "blueprint" (blueprintForm Demo.credentials)
    (tokenCache
       (getOrFetchToken Demo.encodeBody Demo.endpoint_no_expiry
          "https://login.example/token" "blueprint"
          (blueprintForm Demo.credentials) 3600 (Demo.cold 0)).2)
  = (JsStr "tok1",
     tokenCache
       (getOrFetchToken Demo.encodeBody Demo.endpoint_no_expiry
          "https://login.example/token" "blueprint"
          (blueprintForm Demo.credentials) 3600 (Demo.cold 0)).2)
  ∧ (TokenCache.get (40 + 3421 * 1000) "blueprint" (blueprintForm Demo.credentials)
       (tokenCache
          (getOrFetchToken Demo.encodeBody Demo.endpoint_no_expiry
             "https://login.example/token" "blueprint"
             (blueprintForm Demo.credentials) 3600 (Demo.cold 0)).2)).1
    = JsNull.
Proof.
  destruct (default_expiry_when_absent Demo.encodeBody Demo.endpoint_no_expiry
              "https://login.example/token" "blueprint"
              (blueprintForm Demo.credentials) (Demo.cold 0)
              (mkTokenResponse (JsStr "tok1") None))
    as (_ & _ & Hhit & Hmiss); [reflexivity | reflexivity | reflexivity |].
  split.
  - destruct (Hhit (40 + 3419 * 1000)) as [H _]; [vm_compute; reflexivity | exact H].
  - destruct (Hmiss (40 + 3421 * 1000)) as [H _]; [vm_compute; discriminate | exact H].
Defined.

Lemma zero_expiry_is_default_witness :
  tokenCache
    (getOrFetchToken Demo.encodeBody Demo.endpoint_zero_expiry
       "https://login.example/token" "blueprint"
       (blueprintForm Demo.credentials) 3600 (Demo.cold 0)).2
    !! TokenCache.generateKey "blueprint" (blueprintForm Demo.credentials)
  = Some (mkCachedToken (JsStr "tok1") 3420040).
Proof.
  destruct (zero_expiry_is_default Demo.encodeBody Demo.endpoint_zero_expiry
              "https://login.example/token" "blueprint"
              (blueprintForm Demo.credentials) (Demo.cold 0)
              (mkTokenResponse (JsStr "tok1") (Some 0)))
    as (_ & _ & _ & H & _); [reflexivity | reflexivity | reflexivity |].
  exact H.
Defined.

Lemma chain_twice_cold_then_warm_witness :
  ∃ out1 out2,
    (execute Demo.encodeBody Demo.endpoint Demo.credentials [()] (Demo.cold 1000)).1
    = Return [out1]
    ∧ (execute Demo.encodeBody Demo.endpoint Demo.credentials [()]
         (with_clock 2000
            (execute Demo.encodeBody Demo.endpoint Demo.credentials [()]
               (Demo.cold 1000)).2)).1
      = Return [out2]
    ∧ item_access_token out1 = JsStr "tok3"
    ∧ item_access_token out2 = JsStr "tok3"
    ∧ cache_misses (item_cache_info out1) = 3%nat
    ∧ cache_hits (item_cache_info out2) = 3%nat.
Proof.
  destruct (chain_twice_cold_then_warm Demo.encodeBody Demo.endpoint
              Demo.credentials () () (Demo.cold 1000)
              "tok1" "tok2" "tok3" (Some 3600) (Some 3600) (Some 1800)
              40 35 50 2000)
    as (out1 & out2 & R1 & R2 & _ & _ & _ & _ & A1 & _ & _ & A2 & _ & M1 & H2 & _);
    try reflexivity; try discriminate.
  - apply (bool_decide_unpack _). vm_compute. exact I.
  - exists out1, out2. rewrite A2, A1. repeat split; assumption.
Defined.

Lemma agentFic_failure_aborts_witness :
  (execute Demo.encodeBody Demo.endpoint_401 Demo.credentials [()] (Demo.cold 1000)).1
  = Throw Demo.unauthorized
  ∧ length (sent (execute Demo.encodeBody Demo.endpoint_401 Demo.credentials [()]
                    (Demo.cold 1000)).2) = 2%nat.
Proof.
  destruct (agentFic_failure_aborts Demo.encodeBody Demo.endpoint_401
              Demo.credentials () [] (Demo.cold 1000)
              (mkTokenResponse (JsStr "tok1") (Some 3600)) 40 Demo.unauthorized 20)
    as (H1 & H2 & _); try reflexivity.
  split; [exact H1 | by rewrite H2].
Defined.

(** C2 as stated fails in its last part. From a cold cache the number
    of requests issued tells which step failed: one when the blueprint
    request is refused, two when the agentFic request is. Both runs
    throw the same value, the helper's error, so no reading of the
    thrown error can name the failing step. *)
Lemma thrown_error_does_not_name_the_step :
  let at_agentFic :=
    execute Demo.encodeBody Demo.endpoint_401 Demo.credentials [()] (Demo.cold 1000) in
  let at_blueprint :=
    execute Demo.encodeBody Demo.endpoint_401_first Demo.credentials [()] (Demo.cold 1000) in
  at_agentFic.1 = Throw Demo.unauthorized
  ∧ length (sent at_agentFic.2) = 2%nat
  ∧ at_blueprint.1 = Throw Demo.unauthorized
  ∧ length (sent at_blueprint.2) = 1%nat
  ∧ ¬ ∃ step_of : HttpError → string,
        ∀ httpRequest err s',
          execute Demo.encodeBody httpRequest Demo.credentials [()] (Demo.cold 1000)
          = (Throw err, s') →
          (length (sent s') = 1%nat → step_of err = "blueprint")
          ∧ (length (sent s') = 2%nat → step_of err = "agentFic").
Proof.
  split; [vm_compute; reflexivity|]. split; [vm_compute; reflexivity|].
  split; [vm_compute; reflexivity|]. split; [vm_compute; reflexivity|].
  intros [step_of H].
  destruct (execute Demo.encodeBody Demo.endpoint_401 Demo.credentials [()]
              (Demo.cold 1000)) as [r2 s2] eqn:E2.
  destruct (execute Demo.encodeBody Demo.endpoint_401_first Demo.credentials [()]
              (Demo.cold 1000)) as [r1 s1] eqn:E1.
  assert (r2 = Throw Demo.unauthorized ∧ length (sent s2) = 2%nat) as [-> L2].
  { apply (f_equal (λ p, (p.1, length (sent p.2)))) in E2.
    vm_compute in E2. by inversion E2. }
  assert (r1 = Throw Demo.unauthorized ∧ length (sent s1) = 1%nat) as [-> L1].
  { apply (f_equal (λ p, (p.1, length (sent p.2)))) in E1.
    vm_compute in E1. by inversion E1. }
  destruct (H _ _ _ E2) as [_ Ha]. destruct (H _ _ _ E1) as [Hb _].
  specialize (Ha L2). specialize (Hb L1). rewrite Ha in Hb. discriminate Hb.
Qed.

(** The same failure on a cache that held an expired agentFic entry:
    the entry is evicted, the blueprint entry is written, nothing else
    is there. *)
Lemma agentFic_failure_on_stale_entry :
  let r := execute Demo.encodeBody Demo.endpoint_401 Demo.credentials [()]
             Demo.stale_agentFic in
  r.1 = Throw Demo.unauthorized
  ∧ length (sent r.2) = 2%nat
  ∧ tokenCache r.2
      !! TokenCache.generateKey "agentFic" (agentFicForm Demo.credentials (JsStr "tok1"))
    = None
  ∧ tokenCache r.2 !! TokenCache.generateKey "blueprint" (blueprintForm Demo.credentials)
    = Some (mkCachedToken (JsStr "tok1") 3421040)
  ∧ size (tokenCache r.2) = 1%nat.
Proof.
  cbv zeta. repeat split; vm_compute; reflexivity.
Qed.

(** C7 as stated fails. The endpoint answers the three requests with an
    empty [access_token]. The first run starts cold, issues three
    requests and stores three entries, all of them fresh at the clock
    reading 2000 of the second run; yet the second run issues three
    more requests and reports 0 hits and 3 misses: the cached empty
    strings are falsy for [if (cachedToken)]. *)
Lemma empty_tokens_defeat_the_warm_run :
  let run1 := execute Demo.encodeBody Demo.endpoint_empty_tokens Demo.credentials [()]
                (Demo.cold 1000) in
  let run2 := execute Demo.encodeBody Demo.endpoint_empty_tokens Demo.credentials [()]
                (with_clock 2000 run1.2) in
  tokenCache (Demo.cold 1000) = ∅
  ∧ length (sent run1.2) = 3%nat
  ∧ size (tokenCache run1.2) = 3%nat
  ∧ map_Forall (λ _ cached, 2000 < expiresAt cached) (tokenCache run1.2)
  ∧ length (sent run2.2) = 6%nat
  ∧ (cache_hits ∘ item_cache_info <$> match run2.1 with Return out => out | _ => [] end)
    = [0%nat]
  ∧ (cache_misses ∘ item_cache_info <$> match run2.1 with Return out => out | _ => [] end)
    = [3%nat].
Proof.
  cbv zeta. split; [reflexivity|]. split; [vm_compute; reflexivity|].
  split; [vm_compute; reflexivity|].
  split; [apply (bool_decide_unpack _); vm_compute; exact I|].
  split; [vm_compute; reflexivity|]. split; vm_compute; reflexivity.
Qed.

(** ** Supplements *)

(** One [execute] over two input items: the counters are not reset
    between items, so the second record reports the totals of both
    chains. *)
Lemma execute_two_items_demo :
  (execute Demo.encodeBody Demo.endpoint Demo.credentials [(); ()] (Demo.cold 1000)).1
  = Return
      [ mkTokenItem (JsStr "tok3") (JsStr "tok1") (JsStr "tok2") DEFAULT_SCOPE
          (mkCacheInfo "0.1.6" 0 3
             [("blueprint", 0); ("agentFic", 0); ("userToken", 0)] 125);
        mkTokenItem (JsStr "tok3") (JsStr "tok1") (JsStr "tok2") DEFAULT_SCOPE
          (mkCacheInfo "0.1.6" 3 3
             [("blueprint", 0); ("agentFic", 0); ("userToken", 0)] 0) ].
Proof. vm_compute. reflexivity. Qed.

(** A stored token that is the empty string is never served: the step
    finds the entry, takes the falsy value for a miss and fetches. *)
Lemma empty_token_is_fetched_again :
  let s := mkState
             (TokenCache.set 0 "blueprint" (blueprintForm Demo.credentials)
                (JsStr "") 3600 ∅)
             1000 [] (mkStats 0 0 []) in
  let res := getOrFetchToken Demo.encodeBody Demo.endpoint
               "https://login.example/token" "blueprint"
               (blueprintForm Demo.credentials) 3600 s in
  res.1 = Return (JsStr "tok1") ∧ length (sent res.2) = 1%nat.
Proof. split; vm_compute; reflexivity. Qed.

(** The 0.1.8 copy: a rejected request is rethrown with a message that
    starts with the step name in brackets, then the status and body. *)
Lemma request_018_rejected encodeBody httpRequest ep stepName form s err :
  outcome (httpRequest (length (sent s)) (request_options encodeBody ep form))
  = Rejected err →
  (Node018.request encodeBody httpRequest ep stepName form s).1
  = Throw (Node018.mkEnrichedError
             ("[" +:+ stepName +:+ "] HTTP " +:+ Node018.statusCode err +:+ ": "
              +:+ Node018.responseBody err)).
Proof.
  intros H. unfold Node018.request, request_options in *. by rewrite H.
Qed.

Example enrichedMsg_unauthorized :
  Node018.enrichedMsg "agentFic" Demo.unauthorized
  = "[agentFic] HTTP 401: invalid_client".
Proof. vm_compute. reflexivity. Qed.

Example enrichedMsg_transport_failure :
  Node018.enrichedMsg "blueprint" (mkHttpError None None)
  = "[blueprint] HTTP N/A: unknown error".
Proof. vm_compute. reflexivity. Qed.

Lemma enrichedMsg_names_step k1 k2 e1 e2 :
  is_kind k1 → is_kind k2 →
  Node018.enrichedMsg k1 e1 = Node018.enrichedMsg k2 e2 → k1 = k2.
Proof.
  unfold Node018.enrichedMsg.
  intros [-> | [-> | ->]] [-> | [-> | ->]] H; try reflexivity;
    unfold String.app in H; simpl in H; discriminate H.
Qed.

(** * Further properties *)

(** ** The cache as a store *)

(** X1. A later [set] under the same prefix and the same name/value
    pairs (in any order) replaces the entry: the cache is as if only
    the later [set] had happened, it holds no more entries than after
    the first, and the earlier token can no longer be read. *)
Theorem set_overwrites now1 now2 prefix (p1 p2 : Form) tok1 tok2 e1 e2
    (cache : gmap string CachedToken) :
  wf_form p1 → p1 ≡ₚ p2 →
  let once := TokenCache.set now1 prefix p1 tok1 e1 cache in
  let twice := TokenCache.set now2 prefix p2 tok2 e2 once in
  twice = TokenCache.set now2 prefix p2 tok2 e2 cache
  ∧ size twice = size once
  ∧ twice !! TokenCache.generateKey prefix p1
    = Some (mkCachedToken tok2 (now2 + (e2 - 180) * 1000)).
Proof.
  intros Hwf Hp once twice.
  pose proof (generateKey_perm prefix p1 p2 Hwf Hp) as Hk.
  assert (Heq : twice = TokenCache.set now2 prefix p2 tok2 e2 cache).
  { subst twice once. unfold TokenCache.set. rewrite Hk. apply insert_insert_eq. }
  split; [done|]. split.
  - subst twice once. unfold TokenCache.set. rewrite Hk.
    rewrite map_size_insert, lookup_insert_eq. done.
  - rewrite Heq, Hk. apply set_lookup.
Qed.

Lemma set_overwrites_witness :
  TokenCache.set 5 "blueprint" [("b", JsStr "2"); ("a", JsStr "1")] (JsStr "new") 3600
    (TokenCache.set 0 "blueprint" [("a", JsStr "1"); ("b", JsStr "2")] (JsStr "old") 3600 ∅)
  = TokenCache.set 5 "blueprint" [("b", JsStr "2"); ("a", JsStr "1")] (JsStr "new") 3600 ∅.
Proof.
  apply (set_overwrites 0 5 "blueprint"
           [("a", JsStr "1"); ("b", JsStr "2")] [("b", JsStr "2"); ("a", JsStr "1")]).
  - unfold wf_form. apply (bool_decide_unpack _). vm_compute. exact I.
  - apply Permutation_swap.
Defined.

(** X2. Reading does not create or alter entries: the cache after a
    [get] is a sub-map of the cache before, and a second [get] for the
    same key at the same clock reading gives the same answer and
    changes nothing more. *)
Theorem get_shrinks_and_repeats now prefix params (cache : gmap string CachedToken) :
  let r := TokenCache.get now prefix params cache in
  r.2 ⊆ cache
  ∧ (size r.2 ≤ size cache)%nat
  ∧ TokenCache.get now prefix params r.2 = r.
Proof.
  intros r. subst r. unfold TokenCache.get.
  destruct (cache !! TokenCache.generateKey prefix params) as [cached|] eqn:Hl.
  - destruct (expiresAt cached <=? now) eqn:Hx; simpl.
    + split; [apply delete_subseteq|].
      split; [apply map_subseteq_size, delete_subseteq|].
      by rewrite lookup_delete_eq.
    + split; [done|]. split; [done|]. by rewrite Hl, Hx.
  - simpl. split; [done|]. split; [done|]. by rewrite Hl.
Qed.

(** X3. Expiry is monotone in time. If [get] answers a value other than
    [null] at clock reading [later], it answers the same value, and
    leaves the cache untouched, at every earlier reading; and once it
    answers [null], it answers [null] at every later reading, on the
    cache as it was and on the cache as the first [get] left it. *)
Theorem get_monotone earlier later prefix params (cache : gmap string CachedToken) :
  earlier ≤ later →
  ((TokenCache.get later prefix params cache).1 ≠ JsNull →
     TokenCache.get earlier prefix params cache
     = ((TokenCache.get later prefix params cache).1, cache))
  ∧ ((TokenCache.get earlier prefix params cache).1 = JsNull →
       (TokenCache.get later prefix params cache).1 = JsNull
       ∧ (TokenCache.get later prefix params
            (TokenCache.get earlier prefix params cache).2).1 = JsNull).
Proof.
  intros Hle.
  destruct (cache !! TokenCache.generateKey prefix params) as [cached|] eqn:Hl.
  - destruct (Z.le_gt_cases (expiresAt cached) later) as [Hx|Hf].
    + rewrite (get_expired later _ _ _ _ Hl Hx). simpl. split; [done|].
      intros _. split; [done|].
      destruct (Z.le_gt_cases (expiresAt cached) earlier) as [Hx'|Hf'].
      * rewrite (get_expired earlier _ _ _ _ Hl Hx'). simpl.
        rewrite get_miss; [done | apply lookup_delete_eq].
      * rewrite (get_fresh earlier _ _ _ _ Hl) by lia. simpl.
        by rewrite (get_expired later _ _ _ _ Hl Hx).
    + rewrite (get_fresh later _ _ _ _ Hl) by lia.
      rewrite (get_fresh earlier _ _ _ _ Hl) by lia. simpl.
      split; [done|]. intros Ht. split; [done|].
      by rewrite (get_fresh later _ _ _ _ Hl) by lia.
  - rewrite !get_miss by done. simpl. by split.
Qed.

Lemma get_monotone_witness :
  TokenCache.get 10 "blueprint" []
    (TokenCache.set 0 "blueprint" [] (JsStr "t") 3600 ∅)
  = ((TokenCache.get 20 "blueprint" []
        (TokenCache.set 0 "blueprint" [] (JsStr "t") 3600 ∅)).1,
     TokenCache.set 0 "blueprint" [] (JsStr "t") 3600 ∅).
Proof.
  destruct (get_monotone 10 20 "blueprint" []
              (TokenCache.set 0 "blueprint" [] (JsStr "t") 3600 ∅)) as [H _];
    [lia|].
  apply H. vm_compute. discriminate.
Defined.

(** ** What a cache key tells apart *)

Lemma str_app_nil_r (s : string) : s +:+ "" = s.
Proof.
  induction s as [|a s IH]; [done|].
  change (String a s +:+ "") with (String a (s +:+ "")). by rewrite IH.
Qed.

Lemma str_app_assoc (s t u : string) : (s +:+ t) +:+ u = s +:+ (t +:+ u).
Proof.
  induction s as [|a s IH]; [done|].
  change (String a ((s +:+ t) +:+ u) = String a (s +:+ (t +:+ u))). by rewrite IH.
Qed.

Lemma str_length_app (s t : string) :
  String.length (s +:+ t) = (String.length s + String.length t)%nat.
Proof.
  induction s as [|a s IH]; [done|].
  change (S (String.length (s +:+ t)) = S (String.length s + String.length t)).
  by rewrite IH.
Qed.

Lemma str_app_inj_r (s1 s2 t : string) : s1 +:+ t = s2 +:+ t → s1 = s2.
Proof.
  revert s2. induction s1 as [|a s1 IH]; intros [|b s2] H.
  - done.
  - apply (f_equal String.length) in H.
    rewrite !str_length_app in H. simpl in H. lia.
  - apply (f_equal String.length) in H.
    rewrite !str_length_app in H. simpl in H. lia.
  - change (String a (s1 +:+ t) = String b (s2 +:+ t)) in H.
    injection H as -> H. f_equal. by apply IH.
Qed.

(** [join] puts the parts before and after a given position around it,
    whatever stands at that position. *)
Lemma join_around sep (before after : list string) :
  ∃ pre post, ∀ x, join sep (before ++ x :: after) = pre +:+ x +:+ post.
Proof.
  induction before as [|a before IH].
  - destruct after as [|b after].
    + exists "", "". intros x. simpl. by rewrite str_app_nil_r.
    + exists "", (sep +:+ join sep (b :: after)). intros x. done.
  - destruct IH as (pre & post & IH).
    exists (a +:+ sep +:+ pre), post. intros x.
    rewrite !str_app_assoc. rewrite <- IH.
    destruct before; done.
Qed.

(** Two forms that print alike except under one name get different keys. *)
Lemma generateKey_one_value prefix (p1 p2 : Form) k :
  wf_form p1 →
  Object_keys p1 ≡ₚ Object_keys p2 →
  k ∈ Object_keys p1 →
  (∀ key, key ≠ k → template (prop p1 key) = template (prop p2 key)) →
  template (prop p1 k) ≠ template (prop p2 k) →
  TokenCache.generateKey prefix p1 ≠ TokenCache.generateKey prefix p2.
Proof.
  intros Hwf Hp Hk Hsame Hdiff Heq. apply Hdiff.
  unfold TokenCache.generateKey in Heq.
  rewrite <- (sort_perm _ _ Hp) in Heq.
  apply (inj (String.app prefix)), (inj (String.app ":")) in Heq.
  assert (Hks : k ∈ sort (Object_keys p1)).
  { unfold sort. by rewrite merge_sort_Permutation. }
  assert (Hnd : NoDup (sort (Object_keys p1))).
  { unfold sort. by rewrite merge_sort_Permutation. }
  apply list_elem_of_split in Hks as (before & after & Hsplit).
  rewrite Hsplit in Heq, Hnd.
  apply NoDup_app in Hnd as (_ & Hb & Ha). apply NoDup_cons in Ha as [Ha _].
  rewrite !fmap_app, !fmap_cons in Heq.
  assert (Hb' : (λ key, key +:+ "=" +:+ template (prop p1 key)) <$> before
                = (λ key, key +:+ "=" +:+ template (prop p2 key)) <$> before).
  { apply list_fmap_ext. intros _ key Hin%list_elem_of_lookup_2.
    rewrite Hsame; [done|]. intros ->. apply (Hb k Hin). by left. }
  assert (Ha' : (λ key, key +:+ "=" +:+ template (prop p1 key)) <$> after
                = (λ key, key +:+ "=" +:+ template (prop p2 key)) <$> after).
  { apply list_fmap_ext. intros _ key Hin%list_elem_of_lookup_2.
    rewrite Hsame; [done|]. by intros ->. }
  rewrite Hb', Ha' in Heq.
  destruct (join_around "&"
              ((λ key, key +:+ "=" +:+ template (prop p2 key)) <$> before)
              ((λ key, key +:+ "=" +:+ template (prop p2 key)) <$> after))
    as (pre & post & Hj).
  rewrite !Hj in Heq.
  apply (inj (String.app pre)), str_app_inj_r in Heq.
  by apply (inj (String.app k)), (inj (String.app "=")) in Heq.
Qed.



(** Two forms with the same names whose values print alike under every
    name get the same key. *)
Lemma generateKey_same_print prefix (p1 p2 : Form) :
  Object_keys p1 ≡ₚ Object_keys p2 →
  (∀ key, template (prop p1 key) = template (prop p2 key)) →
  TokenCache.generateKey prefix p1 = TokenCache.generateKey prefix p2.
Proof.
  intros Hp Hv. unfold TokenCache.generateKey.
  rewrite <- (sort_perm _ _ Hp). do 3 f_equal.
  apply list_fmap_ext. intros _ key _. by rewrite Hv.
Qed.

(** X15. The keys of the dependent steps follow the tokens as printed.
    For all credentials and all values standing for the tokens: the
    agentFic key is the same for two blueprint tokens exactly when the
    two print alike in the template literal of [generateKey], and so is
    the userToken key; the userToken key is the same for two agent
    tokens exactly when these print alike. Hence two different strings
    always give different keys, in each of the three places; but
    different values can share a key: a missing token ([undefined]) and
    the string [undefined] give the same agentFic key. *)
Theorem dependent_keys_follow_tokens c userScope (b1 b2 a1 a2 : JsVal) :
  let keyA b := TokenCache.generateKey "agentFic" (agentFicForm c b) in
  let keyU b a := TokenCache.generateKey "userToken" (userTokenForm c userScope b a) in
  (keyA b1 = keyA b2 ↔ template b1 = template b2)
  ∧ (keyU b1 a1 = keyU b2 a1 ↔ template b1 = template b2)
  ∧ (keyU b1 a1 = keyU b1 a2 ↔ template a1 = template a2)
  ∧ (∀ t1 t2 : string, t1 ≠ t2 →
       keyA (JsStr t1) ≠ keyA (JsStr t2)
       ∧ keyU (JsStr t1) a1 ≠ keyU (JsStr t2) a1
       ∧ keyU b1 (JsStr t1) ≠ keyU b1 (JsStr t2))
  ∧ keyA JsUndefined = keyA (JsStr "undefined").
Proof.
  intros keyA keyU.
  assert (HA : ∀ x y, keyA x = keyA y ↔ template x = template y).
  { intros x y. split.
    - intros Heq.
      destruct (decide (template x = template y)) as [|Hne]; [done|].
      exfalso. revert Heq.
      apply (generateKey_one_value "agentFic" _ _ "client_assertion").
      + unfold wf_form. apply (bool_decide_unpack _). vm_compute. exact I.
      + reflexivity.
      + apply (bool_decide_unpack _). vm_compute. exact I.
      + intros key Hk. simpl. repeat case_decide; congruence.
      + exact Hne.
    - intros Hv. apply generateKey_same_print; [reflexivity|].
      intros key. simpl. repeat case_decide; congruence. }
  assert (HU1 : ∀ x y a, keyU x a = keyU y a ↔ template x = template y).
  { intros x y a. split.
    - intros Heq.
      destruct (decide (template x = template y)) as [|Hne]; [done|].
      exfalso. revert Heq.
      apply (generateKey_one_value "userToken" _ _ "client_assertion").
      + unfold wf_form. apply (bool_decide_unpack _). vm_compute. exact I.
      + reflexivity.
      + apply (bool_decide_unpack _). vm_compute. exact I.
      + intros key Hk. simpl. repeat case_decide; congruence.
      + exact Hne.
    - intros Hv. apply generateKey_same_print; [reflexivity|].
      intros key. simpl. repeat case_decide; congruence. }
  assert (HU2 : ∀ b x y, keyU b x = keyU b y ↔ template x = template y).
  { intros b x y. split.
    - intros Heq.
      destruct (decide (template x = template y)) as [|Hne]; [done|].
      exfalso. revert Heq.
      apply (generateKey_one_value "userToken" _ _
               "user_federated_identity_credential").
      + unfold wf_form. apply (bool_decide_unpack _). vm_compute. exact I.
      + reflexivity.
      + apply (bool_decide_unpack _). vm_compute. exact I.
      + intros key Hk. simpl. repeat case_decide; congruence.
      + exact Hne.
    - intros Hv. apply generateKey_same_print; [reflexivity|].
      intros key. simpl. repeat case_decide; congruence. }
  split; [apply HA|]. split; [apply HU1|]. split; [apply HU2|].
  split; [|by apply HA].
  intros t1 t2 Hne. split; [|split].
  - intros H. apply HA in H. by apply Hne.
  - intros H. apply HU1 in H. by apply Hne.
  - intros H. apply HU2 in H. by apply Hne.
Qed.

Lemma dependent_keys_follow_tokens_witness :
  (TokenCache.generateKey "agentFic" (agentFicForm Demo.credentials (JsStr "old"))
   = TokenCache.generateKey "agentFic" (agentFicForm Demo.credentials (JsStr "new"))
   ↔ "old" = "new")
  ∧ TokenCache.generateKey "agentFic" (agentFicForm Demo.credentials JsUndefined)
    = TokenCache.generateKey "agentFic"
        (agentFicForm Demo.credentials (JsStr "undefined")).
Proof.
  pose proof (dependent_keys_follow_tokens Demo.credentials DEFAULT_SCOPE
                (JsStr "old") (JsStr "new") JsNull JsNull) as H.
  cbv zeta in H. destruct H as (H1 & _ & _ & _ & H5).
  split; [exact H1 | exact H5].
Defined.

(** ** Counters, requests and what a run leaves in the cache *)

Section NodeRuns.

Ltac kinds_apart :=
  apply kinds_differ; [unfold is_kind; auto | unfold is_kind; auto | discriminate].

Variable encodeBody : Form → string.
Variable httpRequest : nat → IHttpRequestOptions → HttpReply.

Local Abbreviation fetchToken := (getOrFetchToken encodeBody httpRequest).
Local Abbreviation options_of := (request_options encodeBody).
Local Abbreviation run_chain := (chain encodeBody httpRequest).
Local Abbreviation run_items := (@for_items encodeBody httpRequest).
Local Abbreviation run_execute := (@execute encodeBody httpRequest).

(** One step: a miss is counted exactly when a request is issued, hits
    never decrease, and a step that returns counted exactly once. *)
Lemma fetch_counts ep prefix form d s :
  let r := fetchToken ep prefix form d s in
  (length (sent r.2) + misses (cacheStats s)
   = length (sent s) + misses (cacheStats r.2))%nat
  ∧ (∀ v, r.1 = Return v →
       (hits (cacheStats r.2) + misses (cacheStats r.2)
        = S (hits (cacheStats s) + misses (cacheStats s)))%nat).
Proof.
  intros r. subst r. rewrite getOrFetchToken_unfold. cbv zeta.
  destruct (truthy _); simpl.
  - split; [lia|]. intros _ _. lia.
  - destruct (outcome _); simpl; rewrite length_snoc;
      (split; [lia|]); intros v Hv; [discriminate|lia].
Qed.

Lemma chain_counts c s :
  let r := run_chain c s in
  (length (sent r.2) + misses (cacheStats s)
   = length (sent s) + misses (cacheStats r.2))%nat
  ∧ (∀ item, r.1 = Return item →
       cache_hits (item_cache_info item) = hits (cacheStats r.2)
       ∧ cache_misses (item_cache_info item) = misses (cacheStats r.2)
       ∧ (hits (cacheStats r.2) + misses (cacheStats r.2)
          = hits (cacheStats s) + misses (cacheStats s) + 3)%nat).
Proof.
  intros r. subst r. unfold chain, mbind, M_bind.
  pose proof (fetch_counts (tokenEndpoint c) "blueprint" (blueprintForm c) 3600 s) as H1.
  destruct (fetchToken _ "blueprint" _ _ s) as [[t1|e1] s1]; simpl in H1.
  2: { split; [apply H1|]. intros ? [=]. }
  destruct H1 as [H1 H1']. specialize (H1' _ eq_refl).
  pose proof (fetch_counts (tokenEndpoint c) "agentFic" (agentFicForm c t1) 3600 s1) as H2.
  destruct (fetchToken _ "agentFic" _ _ s1) as [[t2|e2] s2]; simpl in H2.
  2: { split; [simpl; lia|]. intros ? [=]. }
  destruct H2 as [H2 H2']. specialize (H2' _ eq_refl).
  pose proof (fetch_counts (tokenEndpoint c) "userToken"
                (userTokenForm c (str_or (scope c) DEFAULT_SCOPE) t1 t2) 3600 s2) as H3.
  destruct (fetchToken _ "userToken" _ _ s2) as [[t3|e3] s3]; simpl in H3.
  2: { split; [simpl; lia|]. intros ? [=]. }
  destruct H3 as [H3 H3']. specialize (H3' _ eq_refl).
  simpl. split; [lia|]. intros item [= <-]. simpl. lia.
Qed.

Lemma for_items_counts {Item} c (items : list Item) acc s :
  let r := run_items c items acc s in
  (length (sent r.2) + misses (cacheStats s)
   = length (sent s) + misses (cacheStats r.2))%nat
  ∧ (∀ out, r.1 = Return out →
       ∃ new, out = (acc ++ new)%list
         ∧ length new = length items
         ∧ ∀ k item, new !! k = Some item →
             (cache_hits (item_cache_info item) + cache_misses (item_cache_info item)
              = hits (cacheStats s) + misses (cacheStats s) + 3 * S k)%nat).
Proof.
  revert acc s. induction items as [|i items IH]; intros acc s r; subst r.
  - simpl. split; [done|]. intros out [= <-]. exists []. rewrite app_nil_r.
    split; [done|]. split; [done|]. intros k item Hk. by rewrite lookup_nil in Hk.
  - simpl. unfold mbind, M_bind.
    pose proof (chain_counts c s) as Hc.
    destruct (run_chain c s) as [[item|e] s1]; simpl in Hc.
    2: { split; [apply Hc|]. intros ? [=]. }
    destruct Hc as [Hs Hc]. destruct (Hc _ eq_refl) as (Hh & Hm & Hsum).
    specialize (IH (acc ++ [item])%list s1). cbv zeta in IH.
    destruct IH as [IHs IH]. split; [lia|].
    intros out Hout. destruct (IH out Hout) as (new & -> & Hlen & Hnew).
    exists (item :: new). rewrite <- app_assoc. split; [done|].
    split; [simpl; lia|].
    intros [|k] it Hk; simpl in Hk.
    + injection Hk as <-. lia.
    + specialize (Hnew k it Hk). lia.
Qed.

(** X5. Bookkeeping of [execute], whatever the endpoint answers and
    whether the run returns or throws: the miss counter equals the
    number of requests the run issued. When the run returns, there is
    one record per input item, and since the counters are not reset
    between items, the record of the item of rank [k] (from 0) reports
    [cache_hits + cache_misses = 3 * (k + 1)]. *)
Theorem execute_counts {Item} c (items : list Item) s :
  let r := run_execute c items s in
  length (sent r.2) = (length (sent s) + misses (cacheStats r.2))%nat
  ∧ (∀ out, r.1 = Return out →
       length out = length items
       ∧ ∀ k item, out !! k = Some item →
           (cache_hits (item_cache_info item) + cache_misses (item_cache_info item)
            = 3 * S k)%nat).
Proof.
  intros r. subst r. rewrite execute_reset.
  pose proof (for_items_counts c items [] (with_cacheStats (mkStats 0 0 []) s)) as H.
  cbv zeta in H.
  destruct (run_items c items [] _) as [[out|e] s1] eqn:E; simpl in H.
  2: { rewrite (bind_Throw _ _ _ _ _ E). destruct H as [H _].
       split; [simpl; lia|]. intros ? [=]. }
  rewrite (bind_Return _ _ _ _ _ E).
  destruct H as [Hs H]. destruct (H _ eq_refl) as (new & -> & Hlen & Hnew).
  simpl. split; [lia|]. intros out' [= <-].
  rewrite length_fmap. split; [done|].
  intros k item Hk. rewrite list_lookup_fmap in Hk.
  destruct (new !! k) as [it|] eqn:Hit; [|done]. injection Hk as <-.
  specialize (Hnew k it Hit). simpl. lia.
Qed.

(** What [get] must have found for its answer to be truthy. *)
Lemma get_truthy now prefix params (cache : gmap string CachedToken) :
  truthy (TokenCache.get now prefix params cache).1 = true →
  (TokenCache.get now prefix params cache).2 = cache
  ∧ ∃ cached, cache !! TokenCache.generateKey prefix params = Some cached
      ∧ token cached = (TokenCache.get now prefix params cache).1
      ∧ now < expiresAt cached.
Proof.
  unfold TokenCache.get.
  destruct (cache !! TokenCache.generateKey prefix params) as [cached|]; [|done].
  destruct (Z.leb_spec (expiresAt cached) now); [done|]. simpl.
  intros _. split; [done|]. by exists cached.
Qed.

(** X6. What being served from the cache means. A step that returns
    without issuing a request returns a non-empty string, which is the
    token stored, not yet expired, under the step's key; it leaves the
    cache as it was and counts one hit. *)
Theorem served_from_cache ep prefix form d s v s' :
  fetchToken ep prefix form d s = (Return v, s') →
  sent s' = sent s →
  (∃ tok, v = JsStr tok ∧ tok ≠ "")
  ∧ (∃ cached, tokenCache s !! TokenCache.generateKey prefix form = Some cached
       ∧ token cached = v ∧ clock s < expiresAt cached)
  ∧ tokenCache s' = tokenCache s
  ∧ hits (cacheStats s') = S (hits (cacheStats s))
  ∧ misses (cacheStats s') = misses (cacheStats s).
Proof.
  rewrite getOrFetchToken_unfold. cbv zeta.
  destruct (truthy _) eqn:Ht.
  - intros [= <- <-] _. simpl.
    destruct (get_truthy _ _ _ _ Ht) as (Hc & cached & Hl & Htok & Hf).
    split.
    { destruct (TokenCache.get _ _ _ _).1 as [| |tok]; try done.
      exists tok. split; [done|]. intros ->. done. }
    split; [by exists cached|]. done.
  - destruct (outcome _); [done|]. intros [= <- <-] Hs. simpl in Hs.
    apply (f_equal length) in Hs. rewrite length_snoc in Hs. lia.
Qed.

(** A step touches no key but its own, whatever its outcome. *)
Lemma fetch_frame ep prefix form d s k :
  k ≠ TokenCache.generateKey prefix form →
  tokenCache (fetchToken ep prefix form d s).2 !! k = tokenCache s !! k.
Proof.
  intros Hk. rewrite getOrFetchToken_unfold. cbv zeta.
  destruct (truthy _); simpl; [by apply get_lookup_ne|].
  destruct (outcome _); simpl.
  - by apply get_lookup_ne.
  - rewrite set_lookup_ne by done. by apply get_lookup_ne.
Qed.

(** A step that returns leaves its token stored under its key. *)
Lemma fetch_stores ep prefix form d s v s' :
  fetchToken ep prefix form d s = (Return v, s') →
  ∃ cached, tokenCache s' !! TokenCache.generateKey prefix form = Some cached
    ∧ token cached = v.
Proof.
  rewrite getOrFetchToken_unfold. cbv zeta.
  destruct (truthy _) eqn:Ht.
  - intros [= <- <-]. simpl.
    destruct (get_truthy _ _ _ _ Ht) as (Hc & cached & Hl & Htok & _).
    exists cached. by rewrite Hc.
  - destruct (outcome _); [done|]. intros [= <- <-]. simpl.
    eexists. split; [apply set_lookup|done].
Qed.

(** X7. What a successful chain leaves behind: for each of the three
    tokens in the returned record, the cache holds that very token
    under the key the next run will compute from the same credentials
    (the agentFic and userToken keys being built from the returned
    tokens); and the reported scope is the configured one, or the
    default when none or an empty one is configured, never empty. *)
Theorem chain_stores_what_it_returns c s item s' :
  run_chain c s = (Return item, s') →
  let userScope := str_or (scope c) DEFAULT_SCOPE in
  let b := item_blueprint_token item in
  let a := item_agent_token item in
  let u := item_access_token item in
  item_scope item = userScope ∧ userScope ≠ ""
  ∧ (∃ cached,
       tokenCache s' !! TokenCache.generateKey "blueprint" (blueprintForm c)
       = Some cached ∧ token cached = b)
  ∧ (∃ cached,
       tokenCache s' !! TokenCache.generateKey "agentFic" (agentFicForm c b)
       = Some cached ∧ token cached = a)
  ∧ (∃ cached,
       tokenCache s' !! TokenCache.generateKey "userToken"
                          (userTokenForm c userScope b a)
       = Some cached ∧ token cached = u).
Proof.
  unfold chain, mbind, M_bind.
  destruct (fetchToken _ "blueprint" _ _ s) as [[t1|e1] s1] eqn:E1; [|done].
  destruct (fetchToken _ "agentFic" _ _ s1) as [[t2|e2] s2] eqn:E2; [|done].
  destruct (fetchToken _ "userToken" _ _ s2) as [[t3|e3] s3] eqn:E3; [|done].
  simpl. intros [= <- <-]. simpl.
  split; [done|]. split.
  { unfold str_or. destruct (scope c) as [sc|]; [|done].
    destruct (String.eqb_spec sc ""); done. }
  destruct (fetch_stores _ _ _ _ _ _ _ E1) as (c1 & L1 & T1).
  destruct (fetch_stores _ _ _ _ _ _ _ E2) as (c2 & L2 & T2).
  destruct (fetch_stores _ _ _ _ _ _ _ E3) as (c3 & L3 & T3).
  pose proof (fetch_frame (tokenEndpoint c) "agentFic" (agentFicForm c t1) 3600 s1)
    as F2. rewrite E2 in F2. simpl in F2.
  pose proof (fetch_frame (tokenEndpoint c) "userToken"
                (userTokenForm c (str_or (scope c) DEFAULT_SCOPE) t1 t2) 3600 s2)
    as F3. rewrite E3 in F3. simpl in F3.
  split; [|split].
  - exists c1. split; [|done].
    rewrite F3 by kinds_apart. by rewrite F2 by kinds_apart.
  - exists c2. split; [|done]. by rewrite F3 by kinds_apart.
  - by exists c3.
Qed.

(** A step whose key is absent from the cache is a miss: it issues one
    request and counts no hit. *)
Lemma fetch_absent ep prefix form d s :
  tokenCache s !! TokenCache.generateKey prefix form = None →
  hits (cacheStats (fetchToken ep prefix form d s).2) = hits (cacheStats s)
  ∧ length (sent (fetchToken ep prefix form d s).2) = S (length (sent s)).
Proof.
  intros Hl. rewrite getOrFetchToken_unfold. cbv zeta.
  rewrite (get_miss _ _ _ _ Hl). simpl.
  destruct (outcome _); simpl; by rewrite length_snoc.
Qed.

Lemma chain_on_empty_cache c s :
  tokenCache s = ∅ →
  hits (cacheStats (run_chain c s).2) = hits (cacheStats s)
  ∧ (length (sent s) < length (sent (run_chain c s).2) ≤ length (sent s) + 3)%nat.
Proof.
  intros Hcold. unfold chain, mbind, M_bind.
  assert (L1 : tokenCache s !! TokenCache.generateKey "blueprint" (blueprintForm c)
               = None) by (rewrite Hcold; apply lookup_empty).
  pose proof (fetch_absent (tokenEndpoint c) "blueprint" (blueprintForm c) 3600 s L1)
    as [H1 S1].
  destruct (fetchToken _ "blueprint" _ _ s) as [[t1|e1] s1] eqn:E1; simpl in *.
  2: { split; [done|lia]. }
  assert (L2 : tokenCache s1 !! TokenCache.generateKey "agentFic" (agentFicForm c t1)
               = None).
  { pose proof (fetch_frame (tokenEndpoint c) "blueprint" (blueprintForm c) 3600 s
                  (TokenCache.generateKey "agentFic" (agentFicForm c t1))) as F.
    rewrite E1 in F. simpl in F. rewrite F by kinds_apart.
    rewrite Hcold. apply lookup_empty. }
  pose proof (fetch_absent (tokenEndpoint c) "agentFic" (agentFicForm c t1) 3600 s1 L2)
    as [H2 S2].
  destruct (fetchToken _ "agentFic" _ _ s1) as [[t2|e2] s2] eqn:E2; simpl in *.
  2: { split; [congruence|lia]. }
  assert (L3 : tokenCache s2 !! TokenCache.generateKey "userToken"
                 (userTokenForm c (str_or (scope c) DEFAULT_SCOPE) t1 t2) = None).
  { pose proof (fetch_frame (tokenEndpoint c) "agentFic" (agentFicForm c t1) 3600 s1
                  (TokenCache.generateKey "userToken"
                     (userTokenForm c (str_or (scope c) DEFAULT_SCOPE) t1 t2))) as F2.
    rewrite E2 in F2. simpl in F2. rewrite F2 by kinds_apart.
    pose proof (fetch_frame (tokenEndpoint c) "blueprint" (blueprintForm c) 3600 s
                  (TokenCache.generateKey "userToken"
                     (userTokenForm c (str_or (scope c) DEFAULT_SCOPE) t1 t2))) as F1.
    rewrite E1 in F1. simpl in F1. rewrite F1 by kinds_apart.
    rewrite Hcold. apply lookup_empty. }
  pose proof (fetch_absent (tokenEndpoint c) "userToken"
                (userTokenForm c (str_or (scope c) DEFAULT_SCOPE) t1 t2) 3600 s2 L3)
    as [H3 S3].
  destruct (fetchToken _ "userToken" _ _ s2) as [[t3|e3] s3] eqn:E3; simpl in *.
  2: { split; [congruence|lia]. }
  split; [congruence|lia].
Qed.

(** X8. [clear] forces a full re-fetch. Whatever the cache held, the
    run for one item that follows a [clear] is served by the endpoint
    alone: whether it returns or throws it reports no hit and issues at
    least one and at most three requests; when it returns, its record
    reports 0 hits and 3 misses and exactly three requests were
    issued. *)
Theorem clear_forces_refetch {Item} c (i : Item) s :
  let s0 := with_tokenCache (TokenCache.clear (tokenCache s)) s in
  let r := run_execute c [i] s0 in
  hits (cacheStats r.2) = 0%nat
  ∧ (length (sent s) < length (sent r.2) ≤ length (sent s) + 3)%nat
  ∧ (∀ out, r.1 = Return out →
       length (sent r.2) = (length (sent s) + 3)%nat
       ∧ ∃ item, out = [item]
           ∧ cache_hits (item_cache_info item) = 0%nat
           ∧ cache_misses (item_cache_info item) = 3%nat).
Proof.
  intros s0 r.
  assert (Hr : r = run_execute c [i] s0) by done.
  rewrite execute_reset in Hr.
  pose proof (chain_on_empty_cache c (with_cacheStats (mkStats 0 0 []) s0) eq_refl)
    as [Hh Hs].
  pose proof (chain_counts c (with_cacheStats (mkStats 0 0 []) s0)) as [Hsent Hcc].
  cbv zeta in Hcc. simpl for_items in Hr.
  destruct (run_chain c (with_cacheStats (mkStats 0 0 []) s0)) as [[item|e] s1] eqn:E.
  - rewrite (bind_Return _ _ _ [item] s1) in Hr.
    2: { by rewrite (bind_Return _ _ _ _ _ E). }
    simpl in Hr. rewrite Hr. simpl in *.
    destruct (Hcc _ eq_refl) as (Hci & Hcm & Hsum).
    split; [done|]. split; [done|]. intros out [= <-].
    split; [lia|]. eexists. split; [done|]. simpl. lia.
  - rewrite (bind_Throw _ _ _ e s1) in Hr.
    2: { by rewrite (bind_Throw _ _ _ _ _ E). }
    rewrite Hr. simpl in *. split; [done|]. split; [done|]. intros ? [=].
Qed.

(** A step that returns writes one entry of the timings, under its
    prefix, and never lowers the count of misses; the entry is 0 when
    the step counted no miss. *)
Lemma fetch_timing_entry ep prefix form d s v s' :
  fetchToken ep prefix form d s = (Return v, s') →
  (misses (cacheStats s) ≤ misses (cacheStats s'))%nat
  ∧ ∃ e, timings (cacheStats s') = obj_set (timings (cacheStats s)) prefix e
       ∧ (misses (cacheStats s') = misses (cacheStats s) → e = 0).
Proof.
  rewrite getOrFetchToken_unfold. cbv zeta.
  destruct (truthy _).
  - intros [= <- <-]. simpl. split; [lia|]. by exists 0.
  - destruct (outcome _); [done|]. intros [= <- <-]. simpl.
    split; [lia|]. eexists. split; [reflexivity|]. intros Hm. lia.
Qed.

(** X9. Timings of a run for one item. The returned record lists one
    fetch time per step, in the order blueprint, agentFic, userToken,
    and [total_fetch_time_ms] is their sum. When the record reports no
    miss, and likewise when the run issued no request, each of the
    three fetch times is 0 and so is the total. *)
Theorem single_run_timings {Item} c (i : Item) s item s' :
  run_execute c [i] s = (Return [item], s') →
  let info := item_cache_info item in
  let zeros := [("blueprint", 0); ("agentFic", 0); ("userToken", 0)] in
  (fetch_times_ms info).*1 = ["blueprint"; "agentFic"; "userToken"]
  ∧ total_fetch_time_ms info = sum_values (fetch_times_ms info)
  ∧ (cache_misses info = 0%nat →
       fetch_times_ms info = zeros ∧ total_fetch_time_ms info = 0)
  ∧ (sent s' = sent s →
       fetch_times_ms info = zeros ∧ total_fetch_time_ms info = 0).
Proof.
  rewrite execute_reset. simpl for_items.
  set (s0 := with_cacheStats (mkStats 0 0 []) s).
  unfold chain, mbind, M_bind.
  destruct (fetchToken _ "blueprint" _ _ s0) as [[t1|e1] s1] eqn:E1; [|done].
  destruct (fetchToken _ "agentFic" _ _ s1) as [[t2|e2] s2] eqn:E2; [|done].
  destruct (fetchToken _ "userToken" _ _ s2) as [[t3|e3] s3] eqn:E3; [|done].
  simpl. intros [= <- <-]. simpl.
  destruct (fetch_timing_entry _ _ _ _ _ _ _ E1) as (M1 & d1 & T1 & Z1).
  destruct (fetch_timing_entry _ _ _ _ _ _ _ E2) as (M2 & d2 & T2 & Z2).
  destruct (fetch_timing_entry _ _ _ _ _ _ _ E3) as (M3 & d3 & T3 & Z3).
  pose proof (fetch_counts (tokenEndpoint c) "blueprint" (blueprintForm c) 3600 s0)
    as [K1 _].
  pose proof (fetch_counts (tokenEndpoint c) "agentFic" (agentFicForm c t1) 3600 s1)
    as [K2 _].
  pose proof (fetch_counts (tokenEndpoint c) "userToken"
                (userTokenForm c (str_or (scope c) DEFAULT_SCOPE) t1 t2) 3600 s2)
    as [K3 _].
  rewrite E1 in K1. rewrite E2 in K2. rewrite E3 in K3.
  rewrite T3, T2, T1. subst s0. simpl in *.
  assert (Hzero : misses (cacheStats s3) = 0%nat → d1 = 0 ∧ d2 = 0 ∧ d3 = 0).
  { intros Hm. split; [apply Z1; lia|]. split; [apply Z2; lia | apply Z3; lia]. }
  unfold sum_values. simpl.
  split; [done|]. split; [done|]. split.
  - intros Hm. by destruct (Hzero Hm) as (-> & -> & ->).
  - intros Hs. rewrite Hs in K3.
    assert (Hm : misses (cacheStats s3) = 0%nat) by lia.
    by destruct (Hzero Hm) as (-> & -> & ->).
Qed.

End NodeRuns.

(** ** The credential and the node *)

Section CredentialAndNode.

Variable encodeBody : Form → string.
Variable httpRequest : nat → IHttpRequestOptions → HttpReply.

Local Abbreviation fetchToken := (getOrFetchToken encodeBody httpRequest).
Local Abbreviation options_of := (request_options encodeBody).
Local Abbreviation run_chain := (chain encodeBody httpRequest).
Local Abbreviation run_execute := (@execute encodeBody httpRequest).
Local Abbreviation pre_request := (AgentIdOAuth2Api.request encodeBody httpRequest).
Local Abbreviation preAuth :=
  (AgentIdOAuth2Api.preAuthentication encodeBody httpRequest).

Ltac apart :=
  apply kinds_differ; [unfold is_kind; auto | unfold is_kind; auto | discriminate].

(** One exchange, with and without the cache in front of it, from
    states that agree on the request log and the clock. *)
Lemma step_as_request ep prefix form sn sp :
  sent sn = sent sp → clock sn = clock sp →
  tokenCache sn !! TokenCache.generateKey prefix form = None →
  let q := pre_request ep form sp in
  let r := fetchToken ep prefix form 3600 sn in
  sent r.2 = sent q.2
  ∧ clock r.2 = clock q.2
  ∧ tokenCache q.2 = tokenCache sp
  ∧ cacheStats q.2 = cacheStats sp
  ∧ match q.1 with
    | Return resp => r.1 = Return (access_token resp)
    | Throw e => r.1 = Throw e
    end.
Proof.
  intros Hs Hc Hl q r. subst q r.
  rewrite getOrFetchToken_unfold. cbv zeta.
  rewrite (get_miss _ _ _ _ Hl). simpl.
  unfold AgentIdOAuth2Api.request, request_options. rewrite Hs, Hc.
  destruct (outcome _); simpl; done.
Qed.


End CredentialAndNode.

(** ** The ping node *)

Section PingFacts.

Variable Data : Type.
Variable getNodeParameter : string → nat → string.
Variable httpRequest : nat → AgentIdPing.Request → HttpError + Data.

Local Abbreviation GET i := (AgentIdPing.mkRequest "GET" (getNodeParameter "url" i)).

Lemma ping_for_items {Item} (items : list Item) i acc sent :
  let r := AgentIdPing.for_items Data getNodeParameter httpRequest i items acc sent in
  ∃ k, (k ≤ length items)%nat
    ∧ r.2 = (sent ++ ((λ j, GET (i + j)%nat) <$> seq 0 k))%list
    ∧ match r.1 with
      | Return out =>
          k = length items
          ∧ ∃ new, out = (acc ++ new)%list ∧ length new = length items
              ∧ ∀ j o, new !! j = Some o →
                  AgentIdPing.status o = 200
                  ∧ httpRequest (length sent + j) (GET (i + j)%nat)
                    = inr (AgentIdPing.data o)
      | Throw err =>
          ∃ j, k = S j
            ∧ httpRequest (length sent + j) (GET (i + j)%nat) = inl err
      end.
Proof.
  revert i acc sent. induction items as [|it items IH]; intros i acc sent r; subst r.
  - exists 0%nat. simpl. rewrite app_nil_r. split; [done|]. split; [done|].
    split; [done|]. exists []. rewrite app_nil_r. split; [done|]. split; [done|].
    intros j o Hj. by rewrite lookup_nil in Hj.
  - simpl.
    destruct (httpRequest (length sent) (GET i)) as [err|resp] eqn:Hr.
    + exists 1%nat. simpl. rewrite Nat.add_0_r.
      split; [lia|]. split; [done|]. exists 0%nat. by rewrite !Nat.add_0_r.
    + specialize (IH (S i) (acc ++ [AgentIdPing.mkPong 200 resp])%list
                     (sent ++ [GET i])%list).
      cbv zeta in IH. destruct IH as (k & Hk & Hsent & Hres).
      exists (S k). split; [lia|]. split.
      { rewrite Hsent. rewrite <- app_assoc. simpl. rewrite Nat.add_0_r.
        do 2 f_equal. rewrite <- fmap_S_seq, <- list_fmap_compose.
        apply list_fmap_ext. intros ? j _. simpl. do 2 f_equal. lia. }
      destruct (AgentIdPing.for_items _ _ _ _ _ _ _).1 as [out|err].
      * destruct Hres as (-> & new & -> & Hlen & Hnew). split; [done|].
        exists (AgentIdPing.mkPong 200 resp :: new).
        rewrite <- app_assoc. split; [done|]. split; [simpl; lia|].
        intros [|j] o Hj; simpl in Hj.
        -- injection Hj as <-. simpl. by rewrite !Nat.add_0_r.
        -- destruct (Hnew j o Hj) as [Hst Hd]. split; [done|].
           rewrite length_snoc in Hd.
           replace (length sent + S j)%nat with (S (length sent) + j)%nat by lia.
           by replace (i + S j)%nat with (S i + j)%nat by lia.
      * destruct Hres as (j & -> & Hj). exists (S j). split; [done|].
        rewrite length_snoc in Hj.
        replace (length sent + S j)%nat with (S (length sent) + j)%nat by lia.
        by replace (i + S j)%nat with (S i + j)%nat by lia.
Qed.


End PingFacts.

(** ** The 0.1.8 copy *)

Section Node018Facts.

Variable encodeBody : Form → string.
Variable httpRequest : nat → IHttpRequestOptions → HttpReply.
Variable toISOString : Z → string.
Variable JSON_stringify : Form → string.
Variable error_keys : HttpError → list string.

Local Abbreviation fetch6 := (getOrFetchToken encodeBody httpRequest).
Local Abbreviation fetch8 :=
  (AgentIdToken018.getOrFetchToken encodeBody httpRequest toISOString
     JSON_stringify error_keys).

(** One step of the 0.1.8 copy, against the same step of the first
    copy run on the state without the logs. *)
Lemma fetch8_as_fetch6 ep prefix form d ls :
  let r8 := fetch8 ep prefix form d ls in
  let r6 := fetch6 ep prefix form d (AgentIdToken018.base ls) in
  AgentIdToken018.base r8.2 = r6.2
  ∧ match r6.1 with
    | Return v => r8.1 = Return v
    | Throw e =>
        ∃ log, r8.1 = Throw (AgentIdToken018.mkError
                               (Node018.enrichedMsg prefix e) log)
    end.
Proof.
  intros r8 r6. subst r8 r6. rewrite getOrFetchToken_unfold. cbv zeta.
  unfold AgentIdToken018.getOrFetchToken, AgentIdToken018.request,
    AgentIdToken018.lift, AgentIdToken018.log, AgentIdToken018.await_httpRequest,
    AgentIdToken018.throw, AgentIdToken018.read_debugLog,
    mbind, AgentIdToken018.M018_bind, tokenCache_get, request_options.
  destruct (TokenCache.get _ _ _ _) as [v c]. simpl.
  destruct (truthy v); simpl; [done|].
  destruct (outcome _); simpl.
  - split; [done|]. by eexists.
  - split; [|done]. unfold with_cacheStats, with_tokenCache. simpl.
    do 2 f_equal; try (f_equal; lia).
Qed.

Local Abbreviation chain6 := (chain encodeBody httpRequest).
Local Abbreviation item8 :=
  (AgentIdToken018.item encodeBody httpRequest toISOString JSON_stringify error_keys).
Local Abbreviation items6 := (@for_items encodeBody httpRequest).
Local Abbreviation items8 :=
  (@AgentIdToken018.for_items encodeBody httpRequest toISOString JSON_stringify
     error_keys).
Local Abbreviation execute6 := (@execute encodeBody httpRequest).
Local Abbreviation execute8 :=
  (@AgentIdToken018.execute encodeBody httpRequest toISOString JSON_stringify
     error_keys).

Ltac step8 H :=
  match goal with
  | |- context [fetch8 ?ep ?prefix ?f ?d ?l] =>
      pose proof (fetch8_as_fetch6 ep prefix f d l) as H;
      cbv zeta in H; simpl AgentIdToken018.base in H;
      let t := fresh "t" in let x := fresh "x" in let l' := fresh "l" in
      destruct (fetch8 ep prefix f d l) as [[t|x] l']
  end.

Lemma item8_as_chain6 c i returnData ls :
  let r8 := item8 c i returnData ls in
  let r6 := chain6 c (AgentIdToken018.base ls) in
  AgentIdToken018.base r8.2 = r6.2
  ∧ match r6.1 with
    | Return t =>
        ∃ log, r8.1 = Return (returnData
                              ++ [AgentIdToken018.PushedTokens (as_018 t) log])%list
    | Throw e =>
        ∃ step log, is_kind step
          ∧ r8.1 = Throw (AgentIdToken018.mkError (Node018.enrichedMsg step e) log)
    end.
Proof.
  intros r8 r6. subst r8 r6.
  unfold AgentIdToken018.item, chain, AgentIdToken018.try_catch,
    AgentIdToken018.new_debugLog, AgentIdToken018.read_debugLog,
    AgentIdToken018.log, AgentIdToken018.lift, AgentIdToken018.throw, gets,
    mbind, AgentIdToken018.M018_bind, M_bind.
  simpl.
  step8 H1.
  all: destruct (fetch6 _ "blueprint" _ _ _) as [[v1|e1] s1]; simpl in *;
    destruct H1 as [B1 H1]; try discriminate; try (destruct H1; discriminate).
  2: { split; [done|]. destruct H1 as [lg [= ->]].
       exists "blueprint", lg. split; [by left|done]. }
  injection H1 as ->. subst s1.
  step8 H2.
  all: destruct (fetch6 _ "agentFic" _ _ _) as [[v2|e2] s2]; simpl in *;
    destruct H2 as [B2 H2]; try discriminate; try (destruct H2; discriminate).
  2: { split; [done|]. destruct H2 as [lg [= ->]].
       exists "agentFic", lg. split; [by right; left|done]. }
  injection H2 as ->. subst s2.
  step8 H3.
  all: destruct (fetch6 _ "userToken" _ _ _) as [[v3|e3] s3]; simpl in *;
    destruct H3 as [B3 H3]; try discriminate; try (destruct H3; discriminate).
  2: { split; [done|]. destruct H3 as [lg [= ->]].
       exists "userToken", lg. split; [by right; right|done]. }
  injection H3 as ->. subst s3.
  split; [done|]. eexists. reflexivity.
Qed.

Lemma bind8_Return {A B} (m : AgentIdToken018.M018 A)
    (k : A → AgentIdToken018.M018 B) s a s' :
  m s = (Return a, s') → (m ≫= k) s = k a s'.
Proof. intros H. unfold mbind, AgentIdToken018.M018_bind. by rewrite H. Qed.

Lemma bind8_Throw {A B} (m : AgentIdToken018.M018 A)
    (k : A → AgentIdToken018.M018 B) s e s' :
  m s = (Throw e, s') → (m ≫= k) s = (Throw e, s').
Proof. intros H. unfold mbind, AgentIdToken018.M018_bind. by rewrite H. Qed.

Lemma items8_as_items6 {Item} c (items : list Item) i rd8 rd6 ls :
  Forall2 (λ p t, ∃ log, p = AgentIdToken018.PushedTokens (as_018 t) log) rd8 rd6 →
  let r8 := items8 c i items rd8 ls in
  let r6 := items6 c items rd6 (AgentIdToken018.base ls) in
  AgentIdToken018.base r8.2 = r6.2
  ∧ match r6.1 with
    | Return out6 =>
        ∃ out8, r8.1 = Return out8
          ∧ Forall2 (λ p t, ∃ log, p = AgentIdToken018.PushedTokens (as_018 t) log)
              out8 out6
    | Throw e =>
        ∃ step log, is_kind step
          ∧ r8.1 = Throw (AgentIdToken018.mkError (Node018.enrichedMsg step e) log)
    end.
Proof.
  revert i rd8 rd6 ls. induction items as [|it items IH]; intros i rd8 rd6 ls Hrd r8 r6;
    subst r8 r6.
  - simpl. split; [done|]. by exists rd8.
  - simpl.
    pose proof (item8_as_chain6 c i rd8 ls) as H. cbv zeta in H.
    destruct (item8 c i rd8 ls) as [[o8|x8] l1] eqn:E8;
      destruct (chain6 c (AgentIdToken018.base ls)) as [[t6|e6] s1] eqn:E6;
      simpl in H; destruct H as [<- H].
    + destruct H as [lg [= ->]].
      rewrite (bind8_Return _ _ _ _ _ E8), (bind_Return _ _ _ _ _ E6).
      apply IH. apply Forall2_app; [done|]. constructor; [by exists lg | constructor].
    + by destruct H as (? & ? & ? & ?).
    + by destruct H.
    + rewrite (bind8_Throw _ _ _ _ _ E8), (bind_Throw _ _ _ _ _ E6).
      simpl. split; [done|]. destruct H as (step & lg & Hk & [= ->]). by exists step, lg.
Qed.



End Node018Facts.

(** ** What the debug log shows of a form *)

Lemma obj_set_fresh {V} (o : list (string * V)) k v :
  k ∉ o.*1 → obj_set o k v = (o ++ [(k, v)])%list.
Proof.
  induction o as [|[k' v'] o IH]; intros Hk; [done|]. simpl in *.
  apply not_elem_of_cons in Hk as [Hne Hk].
  rewrite decide_False by congruence. by rewrite IH.
Qed.

Lemma redact_alike v1 v2 :
  alike20 v1 v2 → AgentIdToken018.redact v1 = AgentIdToken018.redact v2.
Proof.
  intros [[H1 H2] | (s1 & s2 & -> & -> & N1 & N2 & Hp & Hl)].
  - unfold AgentIdToken018.redact.
    destruct v1, v2; try done; by rewrite ?H1, ?H2.
  - unfold AgentIdToken018.redact.
    rewrite !truthy_JsStr by done. by rewrite Hp, Hl.
Qed.

Lemma redact_fold (g : string * JsVal → JsVal) (form : Form) acc :
  NoDup (acc.*1 ++ form.*1) →
  foldl (λ redacted kv, obj_set redacted kv.1 (g kv)) acc form
  = (acc ++ ((λ kv, (kv.1, g kv)) <$> form))%list.
Proof.
  revert acc. induction form as [|[k v] form IH]; intros acc Hnd; simpl.
  - by rewrite app_nil_r.
  - apply NoDup_app in Hnd as (Ha & Hdis & Hf).
    apply NoDup_cons in Hf as [Hk Hf].
    rewrite obj_set_fresh.
    2: { intros Hin. apply (Hdis k Hin). by left. }
    rewrite IH.
    + by rewrite <- app_assoc.
    + rewrite fmap_app. simpl. rewrite <- app_assoc. simpl.
      apply NoDup_app. split; [done|]. split.
      * intros x Hx Hx'. apply elem_of_cons in Hx' as [->|Hx'].
        -- apply (Hdis k Hx). by left.
        -- apply (Hdis x Hx). by right.
      * by apply NoDup_cons.
Qed.

(** X12. What [redactForm] lets through. It keeps the names of the form
    in their order, passes the values of all parameters but
    [client_secret], [client_assertion] and
    [user_federated_identity_credential] unchanged, and replaces those
    three by [(empty)] or by their first 20 characters followed by
    their length; so two forms that differ only in the rest of such a
    value, beyond the 20th character and at equal length, are redacted
    to the same form. *)
Theorem redactForm_lets_through (f1 f2 : Form) :
  (wf_form f1 →
     AgentIdToken018.redactForm f1
     = (λ kv, (kv.1, if bool_decide (kv.1 ∈ AgentIdToken018.SENSITIVE)
                     then AgentIdToken018.redact kv.2 else kv.2)) <$> f1)
  ∧ (same_when_redacted f1 f2 →
       AgentIdToken018.redactForm f1 = AgentIdToken018.redactForm f2).
Proof.
  split.
  - intros Hwf. unfold AgentIdToken018.redactForm.
    by rewrite (redact_fold _ f1 []).
  - intros H. unfold AgentIdToken018.redactForm, same_when_redacted in *.
    generalize (@nil (string * JsVal)).
    induction H as [|[k1 v1] [k2 v2] f1 f2 [Hk Hv] HF IH]; intros acc; [done|].
    simpl in *. subst k2.
    destruct (bool_decide (k1 ∈ AgentIdToken018.SENSITIVE)).
    + rewrite (redact_alike _ _ Hv). apply IH.
    + subst v2. apply IH.
Qed.

Lemma redactForm_lets_through_witness :
  AgentIdToken018.redactForm
    [("client_id", JsStr "B1");
     ("client_secret", JsStr "0123456789abcdefghij-SECRET-ONE")]
  = AgentIdToken018.redactForm
      [("client_id", JsStr "B1");
       ("client_secret", JsStr "0123456789abcdefghij-SECRET-TWO")].
Proof.
  apply (redactForm_lets_through
           [("client_id", JsStr "B1");
            ("client_secret", JsStr "0123456789abcdefghij-SECRET-ONE")]
           [("client_id", JsStr "B1");
            ("client_secret", JsStr "0123456789abcdefghij-SECRET-TWO")]).
  unfold same_when_redacted.
  constructor; [split; [reflexivity|reflexivity]|].
  constructor; [|constructor].
  split; [reflexivity|]. simpl. right.
  exists "0123456789abcdefghij-SECRET-ONE", "0123456789abcdefghij-SECRET-TWO".
  repeat split; try discriminate; reflexivity.
Defined.

(** ** The further properties at work on concrete hosts *)

Lemma execute_counts_witness :
  length (sent (execute Demo.encodeBody Demo.endpoint Demo.credentials [(); ()]
                  (Demo.cold 1000)).2)
  = (0 + misses (cacheStats
                   (execute Demo.encodeBody Demo.endpoint Demo.credentials [(); ()]
                      (Demo.cold 1000)).2))%nat.
Proof.
  destruct (execute_counts Demo.encodeBody Demo.endpoint Demo.credentials [(); ()]
              (Demo.cold 1000)) as [H _].
  exact H.
Defined.

Lemma served_from_cache_witness :
  ∃ cached,
    tokenCache Demo.warm_blueprint
      !! TokenCache.generateKey "blueprint" (blueprintForm Demo.credentials)
    = Some cached
    ∧ token cached = JsStr "tok1" ∧ clock Demo.warm_blueprint < expiresAt cached.
Proof.
  destruct (served_from_cache Demo.encodeBody Demo.endpoint
              "https://login.example/token" "blueprint"
              (blueprintForm Demo.credentials) 3600 Demo.warm_blueprint
              (JsStr "tok1") (after_hit "blueprint" Demo.warm_blueprint))
    as (_ & H & _); [vm_compute; reflexivity | reflexivity | exact H].
Defined.

Lemma chain_stores_what_it_returns_witness :
  ∃ cached,
    tokenCache (chain Demo.encodeBody Demo.endpoint Demo.credentials (Demo.cold 0)).2
      !! TokenCache.generateKey "agentFic"
           (agentFicForm Demo.credentials (JsStr "tok1"))
    = Some cached ∧ token cached = JsStr "tok2".
Proof.
  destruct (chain Demo.encodeBody Demo.endpoint Demo.credentials (Demo.cold 0))
    as [r s'] eqn:E.
  assert (r = Return (mkTokenItem (JsStr "tok3") (JsStr "tok1") (JsStr "tok2")
                        DEFAULT_SCOPE
                        (mkCacheInfo "0.1.6" 0 3
                           [("blueprint", 40); ("agentFic", 35); ("userToken", 50)]
                           125))) as ->.
  { apply (f_equal fst) in E. vm_compute in E. by rewrite <- E. }
  destruct (chain_stores_what_it_returns Demo.encodeBody Demo.endpoint
              Demo.credentials (Demo.cold 0) _ _ E) as (_ & _ & _ & H & _).
  exact H.
Defined.

Lemma clear_forces_refetch_witness :
  hits (cacheStats
          (execute Demo.encodeBody Demo.endpoint Demo.credentials [()]
             (with_tokenCache (TokenCache.clear (tokenCache Demo.warm_blueprint))
                Demo.warm_blueprint)).2) = 0%nat.
Proof.
  destruct (clear_forces_refetch Demo.encodeBody Demo.endpoint Demo.credentials ()
              Demo.warm_blueprint) as [H _].
  exact H.
Defined.

Lemma single_run_timings_witness :
  ∃ item s',
    execute Demo.encodeBody Demo.endpoint Demo.credentials [()] (Demo.cold 1000)
    = (Return [item], s')
    ∧ (fetch_times_ms (item_cache_info item)).*1 = ["blueprint"; "agentFic"; "userToken"]
    ∧ total_fetch_time_ms (item_cache_info item)
      = sum_values (fetch_times_ms (item_cache_info item)).
Proof.
  destruct (execute Demo.encodeBody Demo.endpoint Demo.credentials [()]
              (Demo.cold 1000)) as [r s'] eqn:E.
  assert (∃ item, r = Return [item]) as [item ->].
  { apply (f_equal fst) in E. vm_compute in E. rewrite <- E. by eexists. }
  exists item, s'. split; [reflexivity|].
  destruct (single_run_timings Demo.encodeBody Demo.endpoint Demo.credentials ()
              (Demo.cold 1000) item s' E) as (H1 & H2 & _).
  split; [exact H1 | exact H2].
Defined.



(** The debug log of that failing run, line by line. *)
Example failing_run_debug_log :
  (AgentIdToken018.execute Demo.encodeBody Demo.endpoint_401 Demo.toISOString
     Demo.JSON_stringify Demo.error_keys Demo.credentials [()]
     (Demo.cold_log 1000)).1
  = Throw (AgentIdToken018.mkError "[agentFic] HTTP 401: invalid_client"
      [ "[T1000] --- Starting item 0 ---";
        "[T1000] Token endpoint: https://login.example/token";
        "[T1000] Scope: api://AzureADTokenExchange/.default";
        "[T1000] Blueprint ID: B1...";
        "[T1000] Agent ID: A1...";
        "[T1000] Agent User: U1";
        "[T1000] [blueprint] Cache MISS - fetching...";
        "[T1000] [blueprint] POST https://login.example/token";
        "[T1000] [blueprint] Form params: {grant_type=client_credentials&client_id=B1&client_secret=S1...[2 chars]&scope=api://AzureADTokenExchange/.default&fmi_path=A1}";
        "[T1040] [blueprint] SUCCESS - got access_token (4 chars), expires_in=3600";
        "[T1040] [blueprint] Cached with expiresIn=3600s, fetch took 40ms";
        "[T1040] [agentFic] Cache MISS - fetching...";
        "[T1040] [agentFic] POST https://login.example/token";
        "[T1040] [agentFic] Form params: {grant_type=client_credentials&client_id=A1&scope=api://AzureADTokenExchange/.default&client_assertion=tok1...[4 chars]&client_assertion_type=urn:ietf:params:oauth:client-assertion-type:jwt-bearer}";
        "[T1060] [agentFic] FAILED - status=401";
        "[T1060] [agentFic] Error response: invalid_client";
        "[T1060] [agentFic] Full error keys: message, response" ]).
Proof. vm_compute. reflexivity. Qed.

(** ** Running again *)

Section NodeRerun.

Variable encodeBody : Form → string.
Variable httpRequest : nat → IHttpRequestOptions → HttpReply.

Local Abbreviation fetchToken := (getOrFetchToken encodeBody httpRequest).
Local Abbreviation run_chain := (chain encodeBody httpRequest).
Local Abbreviation run_execute := (@execute encodeBody httpRequest).

Ltac distinct_kinds :=
  apply kinds_differ; [unfold is_kind; auto | unfold is_kind; auto | discriminate].

(** The entries a returned chain leaves under its three keys. *)
Lemma chain_entries c s item s' :
  run_chain c s = (Return item, s') →
  let userScope := str_or (scope c) DEFAULT_SCOPE in
  let b := item_blueprint_token item in
  let a := item_agent_token item in
  ∃ c1 c2 c3,
    tokenCache s' !! TokenCache.generateKey "blueprint" (blueprintForm c) = Some c1
    ∧ tokenCache s' !! TokenCache.generateKey "agentFic" (agentFicForm c b) = Some c2
    ∧ tokenCache s' !! TokenCache.generateKey "userToken"
                         (userTokenForm c userScope b a) = Some c3
    ∧ token c1 = b ∧ token c2 = a ∧ token c3 = item_access_token item.
Proof.
  unfold chain, mbind, M_bind.
  destruct (fetchToken _ "blueprint" _ _ s) as [[t1|e1] s1] eqn:E1; [|done].
  destruct (fetchToken _ "agentFic" _ _ s1) as [[t2|e2] s2] eqn:E2; [|done].
  destruct (fetchToken _ "userToken" _ _ s2) as [[t3|e3] s3] eqn:E3; [|done].
  simpl. intros [= <- <-]. simpl.
  destruct (fetch_stores _ _ _ _ _ _ _ _ _ E1) as (c1 & L1 & T1).
  destruct (fetch_stores _ _ _ _ _ _ _ _ _ E2) as (c2 & L2 & T2).
  destruct (fetch_stores _ _ _ _ _ _ _ _ _ E3) as (c3 & L3 & T3).
  pose proof (fetch_frame encodeBody httpRequest (tokenEndpoint c) "agentFic"
                (agentFicForm c t1) 3600 s1) as F2.
  rewrite E2 in F2. simpl in F2.
  pose proof (fetch_frame encodeBody httpRequest (tokenEndpoint c) "userToken"
                (userTokenForm c (str_or (scope c) DEFAULT_SCOPE) t1 t2) 3600 s2) as F3.
  rewrite E3 in F3. simpl in F3.
  exists c1, c2, c3. repeat split; try done.
  - rewrite F3 by distinct_kinds. by rewrite F2 by distinct_kinds.
  - by rewrite F3 by distinct_kinds.
Qed.

(** What a returning [execute] over one item ran. *)
Lemma execute_one_inv {Item} c (i : Item) s item s' :
  run_execute c [i] s = (Return [item], s') →
  ∃ item0, run_chain c (with_cacheStats (mkStats 0 0 []) s) = (Return item0, s')
    ∧ item = alias_timings (timings (cacheStats s')) item0.
Proof.
  rewrite execute_reset. simpl for_items.
  destruct (run_chain c (with_cacheStats (mkStats 0 0 []) s)) as [[item0|e] s1] eqn:E.
  - rewrite (bind_Return _ _ _ [item0] s1).
    2: { by rewrite (bind_Return _ _ _ _ _ E). }
    simpl. intros [= <- <-]. by exists item0.
  - rewrite (bind_Throw _ _ _ e s1).
    2: { by rewrite (bind_Throw _ _ _ _ _ E). }
    done.
Qed.

(** X16. Running again is served from the cache, from any starting
    state. After an [execute] over one item has returned three
    non-empty tokens, a second [execute] with the same credentials, at
    a clock reading at which every cache entry is still fresh, issues
    no request, leaves the cache as it is, returns the same three
    tokens and reports 3 hits and 0 misses. *)
Theorem rerun_is_served_from_cache {Item} c (i i' : Item) s item s' t tb ta tu :
  run_execute c [i] s = (Return [item], s') →
  item_blueprint_token item = JsStr tb → tb ≠ "" →
  item_agent_token item = JsStr ta → ta ≠ "" →
  item_access_token item = JsStr tu → tu ≠ "" →
  map_Forall (λ _ cached, t < expiresAt cached) (tokenCache s') →
  ∃ item' s'',
    run_execute c [i'] (with_clock t s') = (Return [item'], s'')
    ∧ item_blueprint_token item' = JsStr tb
    ∧ item_agent_token item' = JsStr ta
    ∧ item_access_token item' = JsStr tu
    ∧ sent s'' = sent s'
    ∧ tokenCache s'' = tokenCache s'
    ∧ cache_hits (item_cache_info item') = 3%nat
    ∧ cache_misses (item_cache_info item') = 0%nat.
Proof.
  intros Hrun Hb Nb Ha Na Hu Nu Hfresh.
  destruct (execute_one_inv c i s item s' Hrun) as (item0 & Hc & ->).
  simpl in Hb, Ha, Hu.
  destruct (chain_entries c _ item0 s' Hc) as (c1 & c2 & c3 & L1 & L2 & L3 & T1 & T2 & T3).
  rewrite Hb in *. rewrite Ha in *. rewrite Hu in T3.
  pose proof (map_Forall_lookup_1 _ _ _ _ Hfresh L1) as F1.
  pose proof (map_Forall_lookup_1 _ _ _ _ Hfresh L2) as F2.
  pose proof (map_Forall_lookup_1 _ _ _ _ Hfresh L3) as F3.
  simpl in F1, F2, F3.
  rewrite <- T1 in L2, L3. rewrite <- T2 in L3.
  pose proof (chain_warm encodeBody httpRequest c
                (with_cacheStats (mkStats 0 0 []) (with_clock t s'))
                c1 c2 c3 L1 L2 L3 F1 F2 F3) as Hw.
  rewrite T1, T2, T3 in Hw.
  specialize (Hw (truthy_JsStr _ Nb) (truthy_JsStr _ Na) (truthy_JsStr _ Nu)).
  cbv zeta in Hw.
  pose proof (execute_one encodeBody httpRequest c i' (with_clock t s') _ _ Hw) as Hr2.
  eexists _, _. split; [exact Hr2|]. simpl. repeat split.
Qed.

End NodeRerun.

Lemma rerun_is_served_from_cache_witness :
  ∃ item' s'',
    execute Demo.encodeBody Demo.endpoint Demo.credentials [()]
      (with_clock 2000
         (execute Demo.encodeBody Demo.endpoint Demo.credentials [()]
            Demo.warm_blueprint).2)
    = (Return [item'], s'')
    ∧ item_access_token item' = JsStr "tok2".
Proof.
  destruct (execute Demo.encodeBody Demo.endpoint Demo.credentials [()]
              Demo.warm_blueprint) as [r s'] eqn:E.
  assert (∃ item, r = Return [item]
            ∧ item_blueprint_token item = JsStr "tok1"
            ∧ item_agent_token item = JsStr "tok1"
            ∧ item_access_token item = JsStr "tok2") as (item & -> & Hb & Ha & Hu).
  { apply (f_equal fst) in E. vm_compute in E. rewrite <- E.
    eexists. split; [reflexivity|]. by repeat split. }
  destruct (rerun_is_served_from_cache Demo.encodeBody Demo.endpoint
              Demo.credentials () () Demo.warm_blueprint item s' 2000
              "tok1" "tok1" "tok2" E Hb) as (item' & s'' & H & _ & _ & H3 & _);
    try discriminate; try assumption.
  - apply (f_equal snd) in E. simpl in E. rewrite <- E.
    apply (bool_decide_unpack _). vm_compute. exact I.
  - by exists item', s''.
Defined.
